(** * addManSectionEntry.py: template filler for a man-page section

    A shallow embedding of [nping/nping-dev/pythonscripts/addManSectionEntry.py]
    and the properties of its rendering, of its control flow and of the
    output file it appends to.

    Text is a list of characters ([str]).  The interpreter's library functions
    the script relies on ([str.replace], iteration over the lines of a text
    file, [range], [input]) are modelled next to the script itself; the
    interpreter's [int] is a parameter of the script. *)

From Stdlib Require Import List Ascii String ZArith Lia Bool Arith.
Import ListNotations.

Local Open Scope list_scope.

(** ** Text *)

Definition str : Type := list ascii.

(** A literal of the script. *)
Definition lit (s : string) : str := list_ascii_of_string s.

Definition newline : ascii := ascii_of_nat 10.

Module Text.

(** [s.startswith(old)]. *)
Fixpoint starts_with (old s : str) : bool :=
  match old, s with
  | [], _ => true
  | _ :: _, [] => false
  | a :: old', b :: s' => Ascii.eqb a b && starts_with old' s'
  end.

(** [old in s]: some suffix of [s] starts with [old]. *)
Fixpoint occurs (old s : str) : bool :=
  starts_with old s ||
  match s with
  | [] => false
  | _ :: s' => occurs old s'
  end.

(** The scan of [s.replace(old, new)] for a non-empty [old]: from left to
    right, an occurrence of [old] at the current position is replaced and the
    scan resumes after it ([skip] counts the characters of that occurrence
    still to be passed over); any other character is copied. *)
Fixpoint replace_go (old new : str) (skip : nat) (s : str) : str :=
  match s with
  | [] => []
  | c :: s' =>
      match skip with
      | S k => replace_go old new k s'
      | O =>
          if starts_with old s
          then new ++ replace_go old new (List.length old - 1) s'
          else c :: replace_go old new 0 s'
      end
  end.

(** [s.replace(old, new)].  With an empty [old], Python puts [new] before
    every character and at the end. *)
Definition replace (old new s : str) : str :=
  match old with
  | [] => new ++ flat_map (fun c => c :: new) s
  | _ :: _ => replace_go old new 0 s
  end.

(** [s.split(old)] for a non-empty [old], by the same scan. *)
Fixpoint split_go (old : str) (skip : nat) (s : str) : list str :=
  match s with
  | [] => [[]]
  | c :: s' =>
      match skip with
      | S k => split_go old k s'
      | O =>
          if starts_with old s
          then [] :: split_go old (List.length old - 1) s'
          else match split_go old 0 s' with
               | p :: ps => (c :: p) :: ps
               | [] => [[c]]
               end
      end
  end.

Definition split (old s : str) : list str := split_go old 0 s.

(** [sep.join(pieces)]. *)
Fixpoint join (sep : str) (pieces : list str) : str :=
  match pieces with
  | [] => []
  | [p] => p
  | p :: ps => p ++ sep ++ join sep ps
  end.

(** The lines of a text file as iteration over the file yields them: each
    line keeps its terminator, the last one may have none. *)
Fixpoint readlines (s : str) : list str :=
  match s with
  | [] => []
  | c :: s' =>
      if Ascii.eqb c newline then [c] :: readlines s'
      else match readlines s' with
           | [] => [[c]]
           | l :: ls => (c :: l) :: ls
           end
  end.

End Text.

Import Text.

(** The interpreter's [int] on text, written out for texts of characters
    below 256 and an interpreter of version 3.11 or later with its default
    limit of 4300 digits.  The characters 133 and 160 count as the blank;
    the white space of both ends (characters 9-13 and the blank) is dropped;
    one sign is allowed; then decimal digits, single underscores allowed
    between digits.  The script itself is stated for whatever [int] the
    interpreter has (see [py_int] below); this one serves the sample
    sessions. *)
Module PyInt.

Definition is_space (c : ascii) : bool :=
  let n := nat_of_ascii c in
  ((9 <=? n) && (n <=? 13)) || (n =? 32).

(** Characters from 127 on: 133 and 160 become the blank. *)
Definition to_ascii (c : ascii) : ascii :=
  let n := nat_of_ascii c in
  if (n =? 133) || (n =? 160) then " "%char else c.

Definition digit (c : ascii) : option Z :=
  let n := nat_of_ascii c in
  if (48 <=? n) && (n <=? 57) then Some (Z.of_nat (n - 48)) else None.

Fixpoint lstrip (s : str) : str :=
  match s with
  | c :: s' => if is_space c then lstrip s' else s
  | [] => []
  end.

Definition strip (s : str) : str := rev (lstrip (rev (lstrip s))).

(** The value of the digits and their number. *)
Fixpoint digits (acc : Z) (count : nat) (after_digit : bool) (s : str)
  : option (Z * nat) :=
  match s with
  | [] => if after_digit then Some (acc, count) else None
  | c :: s' =>
      match digit c with
      | Some d => digits (10 * acc + d) (S count) true s'
      | None =>
          if Ascii.eqb c "_"%char && after_digit
          then digits acc count false s'
          else None
      end
  end.

Definition max_str_digits : nat := 4300.

Definition number (s : str) : option Z :=
  match digits 0 0 false s with
  | Some (n, count) => if count <=? max_str_digits then Some n else None
  | None => None
  end.

Definition int (s : str) : option Z :=
  match strip (map to_ascii s) with
  | c :: s' =>
      if Ascii.eqb c "-"%char then option_map Z.opp (number s')
      else if Ascii.eqb c "+"%char then number s'
      else number (c :: s')
  | [] => None
  end.

(** [range(n)]: 0, 1, ..., n-1, and nothing when [n <= 0]. *)
Definition range (n : Z) : list nat := seq 0 (Z.to_nat n).

End PyInt.

(** ** The world the script runs in *)

Inductive exn : Type :=
| EOFError      (* [input] at the end of the operator's input *)
| IOError       (* a template file cannot be opened *)
| ValueError    (* [int] on text that is no integer; write on a closed file *)
| IndexError    (* list index out of range *)
| NameError.    (* use of [o] before it is bound *)

(** The life of the file object [o]. *)
Inductive hstate : Type := Unopened | Opened | Closed.

(** [stdin]: the lines the operator types, in order, without their line ends.
    [stdout]: the prompts shown so far.  [clock]: the number of prompts
    answered so far; the template files are read from a storage that may
    change while the script waits at a prompt.  [output]: the contents of
    [OutputMan.txt]; what [o.write] is given counts as appended when it is
    written. *)
Record World : Type := mkWorld {
  stdin : list str;
  stdout : list str;
  clock : nat;
  output : str;
  handle : hstate
}.

(** The world at the start of a run: [prior] is what [OutputMan.txt] already
    holds (nothing when the file does not exist). *)
Definition initial (prior : str) (answers : list str) : World :=
  mkWorld answers [] 0 prior Unopened.

Inductive Res (A : Type) : Type :=
| Ok (a : A)
| Raise (e : exn).
Arguments Ok {A} a.
Arguments Raise {A} e.

(** Statements: a result or an exception, and the world they leave. *)
Definition M (A : Type) : Type := World -> Res A * World.

Definition ret {A} (a : A) : M A := fun w => (Ok a, w).

Definition raise {A} (e : exn) : M A := fun w => (Raise e, w).

Definition bind {A B} (m : M A) (k : A -> M B) : M B :=
  fun w =>
    match m w with
    | (Ok a, w') => k a w'
    | (Raise e, w') => (Raise e, w')
    end.

Declare Scope script_scope.
Delimit Scope script_scope with script.
Notation "x <- m ;; k" := (bind m (fun x => k))
  (at level 61, m at next level, right associativity) : script_scope.
Notation "m ;; k" := (bind m (fun _ => k))
  (at level 61, right associativity) : script_scope.

Local Open Scope script_scope.

(** [for x in xs: body(x)]. *)
Fixpoint for_each {A} (xs : list A) (body : A -> M unit) : M unit :=
  match xs with
  | [] => ret tt
  | x :: xs' => body x ;; for_each xs' body
  end.

(** [input(prompt)]. *)
Definition input (prompt : str) : M str :=
  fun w =>
    match stdin w with
    | [] =>
        (Raise EOFError,
         mkWorld [] (stdout w ++ [prompt]) (clock w) (output w) (handle w))
    | a :: rest =>
        (Ok a,
         mkWorld rest (stdout w ++ [prompt]) (S (clock w)) (output w)
           (handle w))
    end.

(** [o = open("OutputMan.txt","a")]: the file is created when missing and
    kept as it is otherwise. *)
Definition open_append : M unit :=
  fun w => (Ok tt, mkWorld (stdin w) (stdout w) (clock w) (output w) Opened).

(** [o.write(s)]. *)
Definition write (s : str) : M unit :=
  fun w =>
    match handle w with
    | Opened =>
        (Ok tt,
         mkWorld (stdin w) (stdout w) (clock w) (output w ++ s) Opened)
    | Closed => (Raise ValueError, w)
    | Unopened => (Raise NameError, w)
    end.

(** [o.close()]. *)
Definition close : M unit :=
  fun w =>
    match handle w with
    | Unopened => (Raise NameError, w)
    | _ => (Ok tt, mkWorld (stdin w) (stdout w) (clock w) (output w) Closed)
    end.

(** [l[i]]. *)
Definition index (l : list str) (i : nat) : M str :=
  match nth_error l i with
  | Some x => ret x
  | None => raise IndexError
  end.

(** ** The script *)

Inductive token : Type :=
| SECTION_NAME
| SECTION_HYPHENED_NAME
| OPT_FORMAT
| OPT_ARG
| OPT_DESC
| OPT_NAME.

Definition name (k : token) : str :=
  match k with
  | SECTION_NAME => lit "SECTION_NAME"
  | SECTION_HYPHENED_NAME => lit "SECTION_HYPHENED_NAME"
  | OPT_FORMAT => lit "OPT_FORMAT"
  | OPT_ARG => lit "OPT_ARG"
  | OPT_DESC => lit "OPT_DESC"
  | OPT_NAME => lit "OPT_NAME"
  end.

Definition section_template : str := lit "man-section-template.xml".
Definition entry_template : str := lit "man-section-entry-template.xml".

Definition line1 : str := lit "    </variablelist>".
Definition line2 : str := lit "   </refsect1>".

(** Lines 10-11: what is done to a line of the section template. *)
Definition render_section_line (sectionname hyphname line : str) : str :=
  let line := replace (name SECTION_NAME) sectionname line in
  let line := replace (name SECTION_HYPHENED_NAME) hyphname line in
  line.

(** Lines 30-33: the step for [OPT_ARG]. *)
Definition arg_step (arg line : str) : str :=
  match arg with
  | [] => replace (name OPT_ARG) [] line
  | _ :: _ =>
      replace (name OPT_ARG)
        (lit "<replaceable>" ++ arg ++ lit "</replaceable>") line
  end.

(** Lines 29-35: what is done to a line of the entry template. *)
Definition render_entry_line (fmt arg desc nm line : str) : str :=
  let line := replace (name OPT_FORMAT) fmt line in
  let line := arg_step arg line in
  let line := replace (name OPT_DESC) desc line in
  let line := replace (name OPT_NAME) nm line in
  line.

(** The four lists of the script. *)
Record opts : Type := mkOpts {
  optformat : list str;
  optarg : list str;
  optdesc : list str;
  optname : list str
}.

Section Script.

(** [py_int s]: what the interpreter's [int] makes of the text [s]: the
    integer it returns, [None] when it raises [ValueError]. *)
Variable py_int : str -> option Z.

(** [int(s)]. *)
Definition int (s : str) : M Z :=
  match py_int s with
  | Some n => ret n
  | None => raise ValueError
  end.

(** [storage t f]: the text of file [f], as reading in text mode delivers
    it, when [t] prompts have been answered; [None] when the file cannot be
    opened then. *)
Variable storage : nat -> str -> option str.

(** [open(f)] for reading, iterated over: the lines of [f] as stored now. *)
Definition open_read (f : str) : M (list str) :=
  fun w =>
    match storage (clock w) f with
    | Some content => (Ok (readlines content), w)
    | None => (Raise IOError, w)
    end.

(** Lines 22-36, one turn of the loop over the options.  The four look-ups
    at [i] are done per line, as in the script, before the replacements. *)
Definition option_body (i : nat) (st : opts) : M opts :=
  a <- input (lit "Option format (--tcp-connect): --") ;;
  let st := mkOpts (optformat st ++ [a]) (optarg st) (optdesc st) (optname st) in
  a <- input (lit "Option arg (portnumber): ") ;;
  let st := mkOpts (optformat st) (optarg st ++ [a]) (optdesc st) (optname st) in
  a <- input (lit "Option Description (TCP Connect Mode):") ;;
  let st := mkOpts (optformat st) (optarg st) (optdesc st ++ [a]) (optname st) in
  a <- input (lit "Option name (tcp connect): ") ;;
  let st := mkOpts (optformat st) (optarg st) (optdesc st) (optname st ++ [a]) in
  lines <- open_read entry_template ;;
  for_each lines (fun line =>
    fmt <- index (optformat st) i ;;
    arg <- index (optarg st) i ;;
    desc <- index (optdesc st) i ;;
    nm <- index (optname st) i ;;
    write (render_entry_line fmt arg desc nm line)) ;;
  ret st.

(** Line 21: the loop over [range(int(my_range))]. *)
Fixpoint option_loop (idx : list nat) (st : opts) : M opts :=
  match idx with
  | [] => ret st
  | i :: idx' => st' <- option_body i st ;; option_loop idx' st'
  end.

(** The whole script. *)
Definition main : M unit :=
  sectionname <- input (lit "Section name: ") ;;
  hyphname <- input (lit "Hyphened name: ") ;;
  open_append ;;
  lines <- open_read section_template ;;
  for_each lines (fun line =>
    write (render_section_line sectionname hyphname line)) ;;
  my_range <- input (lit "Number of options: ") ;;
  n <- int my_range ;;
  option_loop (PyInt.range n) (mkOpts [] [] [] []) ;;
  write line1 ;;
  write line2 ;;
  close.

End Script.

(** ** Template lines seen as text and placeholders

    The vocabulary of the statements about rendering: a template line cut
    into stretches of plain text and placeholders. *)

Module Template.

Definition token_eqb (k k' : token) : bool :=
  match k, k' with
  | SECTION_NAME, SECTION_NAME
  | SECTION_HYPHENED_NAME, SECTION_HYPHENED_NAME
  | OPT_FORMAT, OPT_FORMAT
  | OPT_ARG, OPT_ARG
  | OPT_DESC, OPT_DESC
  | OPT_NAME, OPT_NAME => true
  | _, _ => false
  end.

Inductive seg : Type :=
| Plain (t : str)
| Hole (k : token).

Definition seg_text (s : seg) : str :=
  match s with
  | Plain t => t
  | Hole k => name k
  end.

(** The line a list of segments stands for. *)
Definition flat (segs : list seg) : str := flat_map seg_text segs.

(** Every placeholder [k] turned into the text [v], nothing else touched. *)
Definition fill (k : token) (v : str) (segs : list seg) : list seg :=
  map (fun s =>
         match s with
         | Hole k' => if token_eqb k k' then Plain v else s
         | Plain _ => s
         end) segs.

(** All placeholders given a value by [V] filled at once. *)
Definition instantiate (V : token -> option str) (segs : list seg) : str :=
  flat_map (fun s =>
              match s with
              | Plain t => t
              | Hole k => match V k with Some v => v | None => name k end
              end) segs.

(** No occurrence of [old] in [a ++ b] begins inside [a]. *)
Fixpoint none_from (old a b : str) : bool :=
  match a with
  | [] => true
  | _ :: a' => negb (starts_with old (a ++ b)) && none_from old a' b
  end.

(** The name of [k] occurs in the line only where the line has a
    placeholder [k]: no occurrence begins inside plain text or inside
    another placeholder. *)
Fixpoint only_at_holes (k : token) (segs : list seg) : bool :=
  match segs with
  | [] => true
  | Plain t :: rest =>
      none_from (name k) t (flat rest) && only_at_holes k rest
  | Hole k' :: rest =>
      (token_eqb k k' || none_from (name k) (name k') (flat rest))
      && only_at_holes k rest
  end.

(** [only_at_holes] at every step of a chain of replacements, each step
    looking at the line the steps before it have produced. *)
Fixpoint stable (steps : list (token * str)) (segs : list seg) : bool :=
  match steps with
  | [] => true
  | (k, v) :: steps' => only_at_holes k segs && stable steps' (fill k v segs)
  end.

(** A chain of replacements on a line, and the same chain on its segments. *)
Definition apply_steps (steps : list (token * str)) (line : str) : str :=
  fold_left (fun l p => replace (name (fst p)) (snd p) l) steps line.

Definition fill_steps (steps : list (token * str)) (segs : list seg)
  : list seg :=
  fold_left (fun sg p => fill (fst p) (snd p) sg) steps segs.

(** No placeholder name occurs in [s]. *)
Definition token_free (s : str) : bool :=
  forallb (fun k => negb (occurs (name k) s))
    [SECTION_NAME; SECTION_HYPHENED_NAME; OPT_FORMAT; OPT_ARG; OPT_DESC;
     OPT_NAME].

Definition plain_token_free (segs : list seg) : bool :=
  forallb (fun s => match s with Plain t => token_free t | Hole _ => true end)
    segs.

(** The value each step of the two chains puts in. *)
Definition arg_markup (arg : str) : str :=
  match arg with
  | [] => []
  | _ :: _ => lit "<replaceable>" ++ arg ++ lit "</replaceable>"
  end.

Definition section_steps (sectionname hyphname : str) : list (token * str) :=
  [(SECTION_NAME, sectionname); (SECTION_HYPHENED_NAME, hyphname)].

Definition entry_steps (fmt arg desc nm : str) : list (token * str) :=
  [(OPT_FORMAT, fmt); (OPT_ARG, arg_markup arg); (OPT_DESC, desc);
   (OPT_NAME, nm)].

Definition assign (steps : list (token * str)) (k : token) : option str :=
  match find (fun p => token_eqb (fst p) k) steps with
  | Some p => Some (snd p)
  | None => None
  end.

End Template.

Import Template.

(** What a run appends for the section template and for one option. *)
Definition section_block (sectionname hyphname content : str) : str :=
  List.concat (map (render_section_line sectionname hyphname) (readlines content)).

Definition entry_block (content : str) (e : str * str * str * str) : str :=
  let '(fmt, arg, desc, nm) := e in
  List.concat (map (render_entry_line fmt arg desc nm) (readlines content)).

(** The prompts of one turn of the loop over the options. *)
Definition option_prompts : list str :=
  [lit "Option format (--tcp-connect): --"; lit "Option arg (portnumber): ";
   lit "Option Description (TCP Connect Mode):";
   lit "Option name (tcp connect): "].

(** The prompts before the loop. *)
Definition header_prompts : list str :=
  [lit "Section name: "; lit "Hyphened name: "; lit "Number of options: "].

(** The four answers an option takes, in the order they are asked for. *)
Definition answers_of (e : str * str * str * str) : list str :=
  let '(fmt, arg, desc, nm) := e in [fmt; arg; desc; nm].

(** ** Properties of statements *)

(** A statement that leaves the file object as it found it. *)
Definition keeps_handle {A} (m : M A) : Prop :=
  forall w r w', m w = (r, w') -> handle w' = handle w.

(** A statement that, started with the file open, either completes with the
    file closed or raises with the file still open. *)
Definition closes_at_end (m : M unit) : Prop :=
  forall w r w', handle w = Opened -> m w = (r, w') ->
    (r = Ok tt /\ handle w' = Closed) \/
    (exists e, r = Raise e /\ handle w' = Opened).

(** The same world with [p] in front of the contents of the output file. *)
Definition shift (p : str) (w : World) : World :=
  mkWorld (stdin w) (stdout w) (clock w) (p ++ output w) (handle w).

(** A statement that never looks at what the output file holds already. *)
Definition framed {A} (m : M A) : Prop :=
  forall p w, m (shift p w) = (fst (m w), shift p (snd (m w))).

(** The exceptions a statement may end with, and what holds of its result:
    started with the file open, the statement leaves it open, returns a
    value that satisfies [Q] or raises an exception that [allowed] lets
    through. *)
Definition io_errors (e : exn) : bool :=
  match e with
  | EOFError | IOError => true
  | _ => false
  end.

Definition well_behaved {A} (allowed : exn -> bool) (m : M A)
           (Q : A -> Prop) : Prop :=
  forall w, handle w = Opened ->
    match m w with
    | (Ok a, w') => handle w' = Opened /\ Q a
    | (Raise e, w') => handle w' = Opened /\ allowed e = true
    end.

(** A statement that takes the answers in the order they were typed: those
    it has taken are a front part of those it found, the clock counts them,
    and every prompt shown has been answered, except the prompt at which the
    answers ran out. *)
Definition unanswered {A} (r : Res A) : nat :=
  match r with
  | Raise EOFError => 1
  | _ => 0
  end.

Definition in_order {A} (m : M A) : Prop :=
  forall w r w', m w = (r, w') ->
    (exists used,
        stdin w = used ++ stdin w' /\
        clock w' = clock w + List.length used) /\
    (List.length (stdout w) = clock w ->
     List.length (stdout w') = clock w' + unanswered r).

(** A statement that neither prompts nor takes an answer. *)
Definition silent {A} (m : M A) : Prop :=
  forall w r w', m w = (r, w') ->
    stdin w' = stdin w /\ stdout w' = stdout w /\ clock w' = clock w /\
    (forall e, r = Raise e -> e <> EOFError).

(** The four lists all have [i] elements. *)
Definition in_step (i : nat) (st : opts) : Prop :=
  List.length (optformat st) = i /\ List.length (optarg st) = i /\
  List.length (optdesc st) = i /\ List.length (optname st) = i.

(** The number of line terminators in a text. *)
Definition terminators (s : str) : nat := count_occ ascii_dec s newline.

(** The fields of an option. *)
Definition format_of (e : str * str * str * str) : str :=
  let '(fmt, _, _, _) := e in fmt.
Definition arg_of (e : str * str * str * str) : str :=
  let '(_, arg, _, _) := e in arg.
Definition desc_of (e : str * str * str * str) : str :=
  let '(_, _, desc, _) := e in desc.
Definition name_of (e : str * str * str * str) : str :=
  let '(_, _, _, nm) := e in nm.

(** The four lists with the fields of [entries] appended. *)
Definition collect (st : opts) (entries : list (str * str * str * str))
  : opts :=
  mkOpts (optformat st ++ map format_of entries)
    (optarg st ++ map arg_of entries)
    (optdesc st ++ map desc_of entries)
    (optname st ++ map name_of entries).

(** ** A sample session *)

Module Demo.

Definition nl : str := [newline].

Definition section_xml : str :=
  lit "  <refsect1 id='man-SECTION_HYPHENED_NAME'>" ++ nl ++
  lit "    <title>SECTION_NAME</title>" ++ nl ++
  lit "    <variablelist>" ++ nl.

Definition entry_xml : str :=
  lit "      <term><option>--OPT_FORMAT</option> OPT_ARG (OPT_DESC)" ++ nl ++
  lit "      <indexterm><primary>OPT_NAME</primary></indexterm></term>" ++ nl.

(** The entry template after somebody has edited it. *)
Definition entry_xml' : str :=
  lit "      <term>--OPT_FORMAT</term>" ++ nl.

Definition str_eqb (a b : str) : bool :=
  if list_eq_dec ascii_dec a b then true else false.

(** Both templates present and never changed. *)
Definition storage (t : nat) (f : str) : option str :=
  if str_eqb f section_template then Some section_xml
  else if str_eqb f entry_template then Some entry_xml
  else None.

(** The entry template is edited while the script waits for the answers of
    the second option. *)
Definition edited_storage (t : nat) (f : str) : option str :=
  if str_eqb f section_template then Some section_xml
  else if str_eqb f entry_template
       then Some (if t <=? 7 then entry_xml else entry_xml')
       else None.

Definition tcp_connect : str * str * str * str :=
  (lit "tcp-connect", lit "portnumber", lit "TCP Connect Mode",
   lit "tcp connect").

Definition udp : str * str * str * str :=
  (lit "udp", lit "", lit "UDP Mode", lit "udp mode").

(** A line of each template, cut into text and placeholders. *)
Definition section_line : list Template.seg :=
  [Template.Plain (lit "  <refsect1 id='man-");
   Template.Hole SECTION_HYPHENED_NAME;
   Template.Plain (lit "'><title>");
   Template.Hole SECTION_NAME;
   Template.Plain (lit "</title>" ++ nl)].

Definition entry_line : list Template.seg :=
  [Template.Plain (lit "      <term><option>--");
   Template.Hole OPT_FORMAT;
   Template.Plain (lit "</option> ");
   Template.Hole OPT_ARG;
   Template.Plain (lit " (");
   Template.Hole OPT_DESC;
   Template.Plain (lit ")<primary>");
   Template.Hole OPT_NAME;
   Template.Plain (lit "</primary></term>" ++ nl)].

(** A line whose only placeholder stands between two halves of the name of
    another one. *)
Definition joined_line : list Template.seg :=
  [Template.Plain (lit "SECTION_HYPH");
   Template.Hole SECTION_NAME;
   Template.Plain (lit "ENED_NAME")].

(** The four lists after the answers for one option. *)
Definition one_option : opts :=
  mkOpts [lit "tcp-connect"] [lit "portnumber"] [lit "TCP Connect Mode"]
    [lit "tcp connect"].

(** The answers up to the count. *)
Definition header (my_range : string) : list str :=
  [lit "TCP Options"; lit "tcp-options"; lit my_range].

(** A run on an output file that does not exist yet. *)
Definition run (answers : list str) : Res unit * World :=
  main PyInt.int storage (initial [] answers).

(** No template can be opened. *)
Definition empty_storage (t : nat) (f : str) : option str := None.

(** The entry template is removed while the script waits for the answers of
    the second option. *)
Definition lost_entry_storage (t : nat) (f : str) : option str :=
  if str_eqb f section_template then Some section_xml
  else if str_eqb f entry_template
       then (if t <=? 7 then Some entry_xml else None)
       else None.

(** The templates are there only at the moments the script opens them, and
    any other file can be opened at any time. *)
Definition noisy_storage (t : nat) (f : str) : option str :=
  if str_eqb f section_template
  then (if t =? 2 then Some section_xml else None)
  else if str_eqb f entry_template
       then (if 7 <=? t then Some entry_xml else None)
       else Some (lit "something else").

(** A section template without placeholders. *)
Definition fixed_xml : str :=
  lit "  <refsect1 id='man-options'>" ++ nl ++ lit "    <variablelist>" ++ nl.

End Demo.

(** * Facts about text *)

Section TextFacts.

Lemma starts_with_app (old b : str) : starts_with old (old ++ b) = true.
Proof.
  induction old as [|a old IH]; simpl; [reflexivity|].
  now rewrite Ascii.eqb_refl, IH.
Qed.

Lemma starts_with_split (old s : str) :
  starts_with old s = true -> s = old ++ skipn (List.length old) s.
Proof.
  revert s; induction old as [|a old IH]; intros [|b s]; simpl; try easy.
  intros H; apply andb_prop in H as [Hab Hs].
  apply Ascii.eqb_eq in Hab; subst b.
  now rewrite <- (IH s Hs).
Qed.

Lemma starts_with_extend (old x y : str) :
  starts_with old x = true -> starts_with old (x ++ y) = true.
Proof.
  intros H. rewrite (starts_with_split _ _ H), <- app_assoc.
  apply starts_with_app.
Qed.

Lemma starts_with_length (old s : str) :
  starts_with old s = true -> List.length old <= List.length s.
Proof.
  intros H. apply starts_with_split in H.
  apply (f_equal (@List.length ascii)) in H.
  rewrite length_app in H. lia.
Qed.

(** A character that is not in [old] cannot end an occurrence of it. *)
Lemma starts_with_snoc (old s : str) (c : ascii) :
  ~ In c old -> starts_with old (s ++ [c]) = starts_with old s.
Proof.
  revert s; induction old as [|a old IH]; intros s Hc; [now destruct s|].
  destruct s as [|b s]; simpl.
  - destruct (Ascii.eqb_spec a c) as [->|_]; [|reflexivity].
    exfalso; apply Hc; now left.
  - rewrite IH; [reflexivity|]. intros Hin; apply Hc; now right.
Qed.

Lemma replace_go_skip (old new : str) (k : nat) (s : str) :
  replace_go old new k s = replace_go old new 0 (skipn k s).
Proof.
  revert k; induction s as [|c s IH]; intros [|k]; try reflexivity.
  simpl replace_go at 1. now rewrite IH.
Qed.

Lemma replace_nonempty (a : ascii) (old new s : str) :
  replace (a :: old) new s = replace_go (a :: old) new 0 s.
Proof. reflexivity. Qed.

(** An occurrence at the head of the text is replaced, and the scan goes on
    behind it. *)
Lemma replace_occurrence (old new b : str) :
  old <> [] -> replace old new (old ++ b) = new ++ replace old new b.
Proof.
  destruct old as [|a old]; [easy|intros _].
  rewrite !replace_nonempty.
  change ((a :: old) ++ b) with (a :: (old ++ b)).
  cbn [replace_go].
  change (a :: (old ++ b)) with ((a :: old) ++ b).
  rewrite starts_with_app, replace_go_skip.
  cbn [List.length]. rewrite Nat.sub_succ, Nat.sub_0_r.
  now rewrite skipn_app, skipn_all, Nat.sub_diag.
Qed.

(** A character at which no occurrence begins is copied. *)
Lemma replace_copy (old new : str) (c : ascii) (s : str) :
  old <> [] -> starts_with old (c :: s) = false ->
  replace old new (c :: s) = c :: replace old new s.
Proof.
  destruct old as [|a old]; [easy|intros _ H].
  rewrite !replace_nonempty. cbn [replace_go]. now rewrite H.
Qed.

Lemma replace_none_from (old new a b : str) :
  old <> [] -> none_from old a b = true ->
  replace old new (a ++ b) = a ++ replace old new b.
Proof.
  intros Hold. induction a as [|c a IH]; [reflexivity|].
  cbn [none_from]. intros H; apply andb_prop in H as [H1 H2].
  apply negb_true_iff in H1.
  change ((c :: a) ++ b) with (c :: (a ++ b)).
  rewrite (replace_copy old new c (a ++ b) Hold H1), (IH H2). reflexivity.
Qed.

(** Text without an occurrence is left as it is, and text that is one
    occurrence becomes the new text. *)
Lemma replace_absent (old new s : str) :
  occurs old s = false -> replace old new s = s.
Proof.
  destruct old as [|a old]; [now destruct s|].
  induction s as [|c s IH]; [reflexivity|].
  cbn [occurs]. intros H; apply orb_false_iff in H as [H1 H2].
  rewrite replace_copy by easy. now rewrite IH.
Qed.

Lemma replace_exact (old new : str) :
  old <> [] -> replace old new old = new.
Proof.
  intros H. rewrite <- (app_nil_r old) at 2.
  rewrite (replace_occurrence _ _ _ H).
  destruct old; [easy|]. cbn. apply app_nil_r.
Qed.

Lemma replace_go_snoc (old new : str) (c : ascii) :
  old <> [] -> ~ In c old ->
  forall s k, k <= List.length s ->
    replace_go old new k (s ++ [c]) = replace_go old new k s ++ [c].
Proof.
  intros Hold Hc. induction s as [|x s IH]; intros k Hk.
  - assert (k = 0) as -> by (simpl in Hk; lia).
    cbn [app replace_go].
    replace (starts_with old [c]) with (starts_with old []).
    + destruct old; [easy|reflexivity].
    + symmetry. apply (starts_with_snoc old [] c Hc).
  - destruct k as [|k]; cbn [app replace_go].
    + change (x :: s ++ [c]) with ((x :: s) ++ [c]).
      rewrite (starts_with_snoc old (x :: s) c Hc).
      destruct (starts_with old (x :: s)) eqn:E.
      * apply starts_with_length in E. simpl in E.
        rewrite IH by lia. now rewrite app_assoc.
      * rewrite IH by lia. reflexivity.
    + apply IH. simpl in Hk; lia.
Qed.

(** A final character that is not in [old] stays the final character. *)
Lemma replace_snoc (old new s : str) (c : ascii) :
  old <> [] -> ~ In c old ->
  replace old new (s ++ [c]) = replace old new s ++ [c].
Proof.
  intros Hold Hc. destruct old as [|a old]; [easy|].
  rewrite !replace_nonempty. apply replace_go_snoc; [easy|easy|lia].
Qed.

Lemma split_go_nonempty (old : str) (s : str) (k : nat) :
  split_go old k s <> [].
Proof.
  revert k; induction s as [|c s IH]; intros k; [easy|].
  destruct k as [|k]; cbn [split_go]; [|apply IH].
  destruct (starts_with old (c :: s)); [easy|].
  now destruct (split_go old 0 s).
Qed.

Lemma join_cons (sep p : str) (ps : list str) :
  ps <> [] -> join sep (p :: ps) = p ++ sep ++ join sep ps.
Proof. destruct ps; easy. Qed.

Lemma join_head (sep : str) (c : ascii) (p : str) (ps : list str) :
  join sep ((c :: p) :: ps) = c :: join sep (p :: ps).
Proof. destruct ps; reflexivity. Qed.

(** Replacing is splitting at the occurrences and joining with the new
    text. *)
Lemma replace_go_join (old new : str) (s : str) (k : nat) :
  replace_go old new k s = join new (split_go old k s).
Proof.
  revert k; induction s as [|c s IH]; intros k; [reflexivity|].
  destruct k as [|k]; cbn [replace_go split_go]; [|apply IH].
  destruct (starts_with old (c :: s)).
  - rewrite join_cons by apply split_go_nonempty. now rewrite IH.
  - rewrite IH.
    destruct (split_go old 0 s) as [|p ps] eqn:E.
    + now apply split_go_nonempty in E.
    + now rewrite join_head.
Qed.

Lemma join_split_go (old : str) (s : str) (k : nat) :
  old <> [] -> join old (split_go old k s) = skipn k s.
Proof.
  intros Hold. revert k; induction s as [|c s IH]; intros k.
  - now destruct k.
  - destruct k as [|k]; cbn [split_go skipn]; [|apply IH].
    destruct (starts_with old (c :: s)) eqn:E.
    + rewrite join_cons by apply split_go_nonempty.
      rewrite IH. rewrite (starts_with_split _ _ E) at 1.
      destruct old as [|a old]; [easy|].
      cbn [List.length]. rewrite Nat.sub_succ, Nat.sub_0_r. reflexivity.
    + specialize (IH 0).
      destruct (split_go old 0 s) as [|p ps] eqn:E'.
      * now apply split_go_nonempty in E'.
      * rewrite join_head, IH. reflexivity.
Qed.

Lemma join_first_prefix (sep p : str) (ps : list str) :
  exists r, join sep (p :: ps) = p ++ r.
Proof.
  destruct ps as [|q ps].
  - exists []. now rewrite app_nil_r.
  - now exists (sep ++ join sep (q :: ps)).
Qed.

(** The pieces between the occurrences hold no occurrence. *)
Lemma split_go_pieces (old : str) (s : str) (k : nat) :
  old <> [] -> Forall (fun p => occurs old p = false) (split_go old k s).
Proof.
  intros Hold. revert k; induction s as [|c s IH]; intros k.
  - constructor; [|constructor]. destruct old; [easy|reflexivity].
  - destruct k as [|k]; cbn [split_go]; [|apply IH].
    destruct (starts_with old (c :: s)) eqn:E.
    + constructor; [|apply IH]. destruct old; [easy|reflexivity].
    + pose proof (IH 0) as HF. pose proof (join_split_go old s 0 Hold) as HJ.
      destruct (split_go old 0 s) as [|p ps] eqn:E'.
      * now apply split_go_nonempty in E'.
      * inversion HF as [|? ? Hp Hps]; subst.
        constructor; [|assumption].
        cbn [occurs]. rewrite Hp, orb_false_r.
        destruct (starts_with old (c :: p)) eqn:Ep; [|reflexivity].
        destruct (join_first_prefix old p ps) as [r Hr].
        cbn [skipn] in HJ. rewrite Hr in HJ.
        apply (starts_with_extend _ _ r) in Ep.
        change ((c :: p) ++ r) with (c :: (p ++ r)) in Ep.
        rewrite HJ in Ep. congruence.
Qed.

Lemma concat_readlines (s : str) : List.concat (readlines s) = s.
Proof.
  induction s as [|c s IH]; [reflexivity|].
  cbn [readlines]. destruct (Ascii.eqb c newline).
  - cbn. now rewrite IH.
  - destruct (readlines s) as [|l ls]; cbn in *; now rewrite <- IH.
Qed.

End TextFacts.

(** * Facts about placeholders *)

Section TemplateFacts.

Lemma name_nonempty (k : token) : name k <> [].
Proof. now destruct k. Qed.

Lemma newline_not_in_name (k : token) : ~ In newline (name k).
Proof.
  destruct k; cbn; intros H;
    repeat (destruct H as [H|H]; [discriminate H|]); exact H.
Qed.

Lemma token_eqb_eq (k k' : token) : token_eqb k k' = true <-> k = k'.
Proof. destruct k, k'; cbn; split; congruence. Qed.

Lemma flat_cons (s : seg) (segs : list seg) :
  flat (s :: segs) = seg_text s ++ flat segs.
Proof. reflexivity. Qed.

(** When the name of [k] occurs only at the placeholders [k], replacing it
    in the line fills exactly these placeholders. *)
Lemma replace_only_at_holes (k : token) (v : str) (segs : list seg) :
  only_at_holes k segs = true ->
  replace (name k) v (flat segs) = flat (fill k v segs).
Proof.
  induction segs as [|s segs IH]; [now destruct k|].
  cbn [only_at_holes fill map]. fold (fill k v segs).
  rewrite !flat_cons.
  destruct s as [t|k']; intros H; apply andb_prop in H as [H1 H2].
  - rewrite replace_none_from by (auto using name_nonempty).
    now rewrite IH.
  - destruct (token_eqb k k') eqn:E.
    + apply token_eqb_eq in E; subst k'. cbn [seg_text].
      rewrite replace_occurrence by apply name_nonempty.
      now rewrite IH.
    + cbn [orb] in H1. cbn [seg_text].
      rewrite replace_none_from by (auto using name_nonempty).
      now rewrite IH.
Qed.

Lemma apply_steps_stable (steps : list (token * str)) (segs : list seg) :
  stable steps segs = true ->
  apply_steps steps (flat segs) = flat (fill_steps steps segs).
Proof.
  revert segs; induction steps as [|[k v] steps IH]; intros segs;
    [reflexivity|].
  cbn [stable]. intros H; apply andb_prop in H as [H1 H2].
  cbn [apply_steps fill_steps fold_left fst snd].
  rewrite (replace_only_at_holes _ _ _ H1).
  apply (IH _ H2).
Qed.

Lemma instantiate_cons (V : token -> option str) (s : seg)
      (segs : list seg) :
  instantiate V (s :: segs)
  = match s with
    | Plain t => t
    | Hole k => match V k with Some v => v | None => name k end
    end ++ instantiate V segs.
Proof. reflexivity. Qed.

Lemma instantiate_nil (segs : list seg) :
  instantiate (assign []) segs = flat segs.
Proof.
  induction segs as [|[t|k] segs IH]; [reflexivity| |];
    rewrite instantiate_cons, flat_cons, IH; reflexivity.
Qed.

Lemma instantiate_fill (k : token) (v : str) (steps : list (token * str))
      (segs : list seg) :
  instantiate (assign steps) (fill k v segs)
  = instantiate (assign ((k, v) :: steps)) segs.
Proof.
  induction segs as [|[t|k'] segs IH]; [reflexivity| |];
    cbn [fill map]; fold (fill k v segs).
  - now rewrite !instantiate_cons, IH.
  - rewrite (instantiate_cons _ (Hole k')).
    unfold assign at 2. cbn [find fst snd].
    destruct (token_eqb k k'); rewrite instantiate_cons, IH; reflexivity.
Qed.

(** Filling step after step fills every placeholder with the value of the
    first step that names it. *)
Lemma flat_fill_steps (steps : list (token * str)) (segs : list seg) :
  flat (fill_steps steps segs) = instantiate (assign steps) segs.
Proof.
  revert segs; induction steps as [|[k v] steps IH]; intros segs.
  - symmetry; apply instantiate_nil.
  - cbn [fill_steps fold_left fst snd].
    change (flat (fill_steps steps (fill k v segs))
            = instantiate (assign ((k, v) :: steps)) segs).
    now rewrite IH, instantiate_fill.
Qed.

Lemma arg_step_markup (arg line : str) :
  arg_step arg line = replace (name OPT_ARG) (arg_markup arg) line.
Proof. now destruct arg. Qed.

Lemma render_section_line_steps (sectionname hyphname line : str) :
  render_section_line sectionname hyphname line
  = apply_steps (section_steps sectionname hyphname) line.
Proof. reflexivity. Qed.

Lemma render_entry_line_steps (fmt arg desc nm line : str) :
  render_entry_line fmt arg desc nm line
  = apply_steps (entry_steps fmt arg desc nm) line.
Proof.
  unfold render_entry_line. rewrite arg_step_markup. reflexivity.
Qed.

Lemma render_section_line_snoc (sectionname hyphname body : str) :
  render_section_line sectionname hyphname (body ++ [newline])
  = render_section_line sectionname hyphname body ++ [newline].
Proof.
  unfold render_section_line.
  now rewrite !replace_snoc
    by (auto using name_nonempty, newline_not_in_name).
Qed.

Lemma render_entry_line_snoc (fmt arg desc nm body : str) :
  render_entry_line fmt arg desc nm (body ++ [newline])
  = render_entry_line fmt arg desc nm body ++ [newline].
Proof.
  unfold render_entry_line. rewrite !arg_step_markup.
  now rewrite !replace_snoc
    by (auto using name_nonempty, newline_not_in_name).
Qed.

End TemplateFacts.

(** * Facts about statements *)

Section StatementFacts.

Lemma bind_ret {A B} (a : A) (k : A -> M B) (w : World) :
  bind (ret a) k w = k a w.
Proof. reflexivity. Qed.

Lemma bind_raise {A B} (e : exn) (k : A -> M B) (w : World) :
  bind (raise e) k w = (Raise e, w).
Proof. reflexivity. Qed.

Lemma bind_input {B} (p : str) (k : str -> M B) (a : str) (r so : list str)
      (clk : nat) (out : str) (h : hstate) :
  bind (input p) k (mkWorld (a :: r) so clk out h)
  = k a (mkWorld r (so ++ [p]) (S clk) out h).
Proof. reflexivity. Qed.

Lemma bind_open_append {B} (k : unit -> M B) (si so : list str) (clk : nat)
      (out : str) (h : hstate) :
  bind open_append k (mkWorld si so clk out h)
  = k tt (mkWorld si so clk out Opened).
Proof. reflexivity. Qed.

Lemma bind_write {B} (s : str) (k : unit -> M B) (si so : list str)
      (clk : nat) (out : str) :
  bind (write s) k (mkWorld si so clk out Opened)
  = k tt (mkWorld si so clk (out ++ s) Opened).
Proof. reflexivity. Qed.

Lemma bind_index {B} (l : list str) (i : nat) (x : str) (k : str -> M B)
      (w : World) :
  nth_error l i = Some x -> bind (index l i) k w = k x w.
Proof. unfold index. now intros ->. Qed.

Lemma for_each_ext {A} (f g : A -> M unit) (xs : list A) :
  (forall x w, f x w = g x w) ->
  forall w, for_each xs f w = for_each xs g w.
Proof.
  intros H. induction xs as [|x xs IH]; intros w; [reflexivity|].
  cbn [for_each]. unfold bind. rewrite H.
  destruct (g x w) as [[[]|e] w']; [apply IH|reflexivity].
Qed.

(** Writing every line of a list appends the lines in their order. *)
Lemma for_each_write (f : str -> str) (ls : list str) (si so : list str)
      (clk : nat) (out : str) :
  for_each ls (fun l => write (f l)) (mkWorld si so clk out Opened)
  = (Ok tt, mkWorld si so clk (out ++ List.concat (map f ls)) Opened).
Proof.
  revert out; induction ls as [|l ls IH]; intros out.
  - cbn. now rewrite app_nil_r.
  - cbn [for_each]. rewrite bind_write, IH. cbn [map List.concat].
    now rewrite app_assoc.
Qed.

Lemma bind_for_each_write {B} (f : str -> str) (ls : list str)
      (k : unit -> M B) (si so : list str) (clk : nat) (out : str) :
  bind (for_each ls (fun l => write (f l))) k (mkWorld si so clk out Opened)
  = k tt (mkWorld si so clk (out ++ List.concat (map f ls)) Opened).
Proof. unfold bind at 1. now rewrite for_each_write. Qed.

(** The loop over the lines of the entry template, lines 28-36. *)
Lemma for_each_entry_lines (st : opts) (i : nat) (fmt arg desc nm : str)
      (ls : list str) (si so : list str) (clk : nat) (out : str) :
  nth_error (optformat st) i = Some fmt ->
  nth_error (optarg st) i = Some arg ->
  nth_error (optdesc st) i = Some desc ->
  nth_error (optname st) i = Some nm ->
  for_each ls
    (fun line =>
       fmt <- index (optformat st) i ;;
       arg <- index (optarg st) i ;;
       desc <- index (optdesc st) i ;;
       nm <- index (optname st) i ;;
       write (render_entry_line fmt arg desc nm line))
    (mkWorld si so clk out Opened)
  = (Ok tt,
     mkWorld si so clk
       (out ++ List.concat (map (render_entry_line fmt arg desc nm) ls))
       Opened).
Proof.
  intros H1 H2 H3 H4.
  rewrite (for_each_ext _
             (fun line => write (render_entry_line fmt arg desc nm line))).
  - apply for_each_write.
  - intros line w.
    now rewrite (bind_index _ _ fmt), (bind_index _ _ arg),
      (bind_index _ _ desc), (bind_index _ _ nm).
Qed.

Lemma nth_error_snoc (l : list str) (x : str) :
  nth_error (l ++ [x]) (List.length l) = Some x.
Proof.
  rewrite nth_error_app2 by lia. now rewrite Nat.sub_diag.
Qed.

Variable storage : nat -> str -> option str.

Lemma bind_open_read {B} (f content : str) (k : list str -> M B)
      (w : World) :
  storage (clock w) f = Some content ->
  bind (open_read storage f) k w = k (readlines content) w.
Proof. unfold bind, open_read. now intros ->. Qed.

Lemma bind_open_read_missing {B} (f : str) (k : list str -> M B)
      (w : World) :
  storage (clock w) f = None ->
  bind (open_read storage f) k w = (Raise IOError, w).
Proof. unfold bind, open_read. now intros ->. Qed.

(** One turn of the loop: four answers are taken, the entry template is read
    as it is stored after the fourth, and the rendered block is appended. *)
Lemma option_body_ok (i : nat) (st : opts) (fmt arg desc nm content : str)
      (r so : list str) (clk : nat) (out : str) :
  List.length (optformat st) = i -> List.length (optarg st) = i ->
  List.length (optdesc st) = i -> List.length (optname st) = i ->
  storage (clk + 4) entry_template = Some content ->
  option_body storage i st
    (mkWorld (fmt :: arg :: desc :: nm :: r) so clk out Opened)
  = (Ok (mkOpts (optformat st ++ [fmt]) (optarg st ++ [arg])
           (optdesc st ++ [desc]) (optname st ++ [nm])),
     mkWorld r (so ++ option_prompts) (clk + 4)
       (out ++ entry_block content (fmt, arg, desc, nm)) Opened).
Proof.
  intros H1 H2 H3 H4 Hst. unfold option_body.
  rewrite !bind_input. cbn [optformat optarg optdesc optname].
  replace (S (S (S (S clk)))) with (clk + 4) by lia.
  rewrite (bind_open_read _ content) by exact Hst.
  unfold bind at 1.
  rewrite (for_each_entry_lines
             (mkOpts (optformat st ++ [fmt]) (optarg st ++ [arg])
                (optdesc st ++ [desc]) (optname st ++ [nm]))
             i fmt arg desc nm).
  - cbv beta iota. unfold ret. rewrite <- !app_assoc. reflexivity.
  - subst i; apply nth_error_snoc.
  - rewrite <- H2; apply nth_error_snoc.
  - rewrite <- H3; apply nth_error_snoc.
  - rewrite <- H4; apply nth_error_snoc.
Qed.

(** The loop over the options: [tmpls] are the contents of the entry template
    at the successive turns. *)
Lemma option_loop_ok (entries : list (str * str * str * str)) :
  forall (tmpls : list str) (i : nat) (st : opts) (r so : list str)
         (clk : nat) (out : str),
    List.length tmpls = List.length entries ->
    List.length (optformat st) = i -> List.length (optarg st) = i ->
    List.length (optdesc st) = i -> List.length (optname st) = i ->
    (forall j c, nth_error tmpls j = Some c ->
                 storage (clk + 4 * (j + 1)) entry_template = Some c) ->
    exists st',
      option_loop storage (seq i (List.length entries)) st
        (mkWorld (flat_map answers_of entries ++ r) so clk out Opened)
      = (Ok st',
         mkWorld r (so ++ flat_map (fun _ => option_prompts) entries)
           (clk + 4 * List.length entries)
           (out ++ List.concat
                     (map (fun p => entry_block (fst p) (snd p))
                        (combine tmpls entries)))
           Opened).
Proof.
  induction entries as [|[[[fmt arg] desc] nm] entries IH];
    intros tmpls i st r so clk out Hlen H1 H2 H3 H4 Hst.
  - exists st. destruct tmpls; [|discriminate Hlen]. cbn.
    now rewrite !app_nil_r, Nat.add_0_r.
  - destruct tmpls as [|c tmpls]; [discriminate Hlen|].
    cbn [List.length seq option_loop flat_map answers_of app].
    unfold bind at 1.
    rewrite (option_body_ok i st fmt arg desc nm c) by
      (auto; apply (Hst 0 c); reflexivity).
    edestruct (IH tmpls (S i)) as [st' Hloop]; cycle 6.
    + exists st'. rewrite Hloop. f_equal. f_equal.
      * now rewrite <- app_assoc.
      * lia.
      * cbn [combine map List.concat fst snd]. now rewrite <- !app_assoc.
    + cbn in Hlen; lia.
    + cbn [optformat]. rewrite length_app; cbn; lia.
    + cbn [optarg]. rewrite length_app; cbn; lia.
    + cbn [optdesc]. rewrite length_app; cbn; lia.
    + cbn [optname]. rewrite length_app; cbn; lia.
    + intros j c' Hj.
      replace (clk + 4 + 4 * (j + 1)) with (clk + 4 * (S j + 1)) by lia.
      apply Hst. exact Hj.
Qed.

End StatementFacts.

(** * Facts about the whole script *)

Section ScriptFacts.

Variable py_int : str -> option Z.
Variable storage : nat -> str -> option str.

(** The script up to the moment the count has been typed. *)
Lemma main_header (prior sectionname hyphname my_range sect : str)
      (rest : list str) :
  storage 2 section_template = Some sect ->
  main py_int storage (initial prior (sectionname :: hyphname :: my_range :: rest))
  = (n <- int py_int my_range ;;
     option_loop storage (PyInt.range n) (mkOpts [] [] [] []) ;;
     write line1 ;; write line2 ;; close)
      (mkWorld rest header_prompts 3
         (prior ++ section_block sectionname hyphname sect) Opened).
Proof.
  intros Hs. unfold main, initial.
  rewrite !bind_input, bind_open_append.
  rewrite (bind_open_read storage _ sect) by exact Hs.
  rewrite bind_for_each_write, bind_input.
  reflexivity.
Qed.

(** A run that goes through: the count is an integer, the operator answers
    for as many options as the loop has turns, the templates can be read. *)
Lemma main_ok (prior sectionname hyphname my_range sect : str) (n : Z)
      (entries : list (str * str * str * str)) (tmpls : list str)
      (rest : list str) :
  storage 2 section_template = Some sect ->
  py_int my_range = Some n ->
  List.length entries = Z.to_nat n ->
  List.length tmpls = List.length entries ->
  (forall j c, nth_error tmpls j = Some c ->
               storage (3 + 4 * (j + 1)) entry_template = Some c) ->
  main py_int storage
    (initial prior
       (sectionname :: hyphname :: my_range ::
        flat_map answers_of entries ++ rest))
  = (Ok tt,
     mkWorld rest
       (header_prompts ++ flat_map (fun _ => option_prompts) entries)
       (3 + 4 * List.length entries)
       (prior ++ section_block sectionname hyphname sect
          ++ List.concat (map (fun p => entry_block (fst p) (snd p))
                            (combine tmpls entries))
          ++ line1 ++ line2)
       Closed).
Proof.
  intros Hs Hn Hlen Htm Hst.
  rewrite (main_header _ _ _ _ sect) by exact Hs.
  unfold int. rewrite Hn, bind_ret.
  unfold PyInt.range. rewrite <- Hlen.
  destruct (option_loop_ok storage entries tmpls 0 (mkOpts [] [] [] [])
              rest header_prompts 3
              (prior ++ section_block sectionname hyphname sect))
    as [st' Hloop]; auto.
  unfold bind at 1. rewrite Hloop. cbv beta iota.
  rewrite !bind_write. cbn [close handle stdin stdout clock output].
  now rewrite <- !app_assoc.
Qed.

(** A run stopped by a count that is no integer. *)
Lemma main_bad_count (prior sectionname hyphname my_range sect : str)
      (rest : list str) :
  storage 2 section_template = Some sect ->
  py_int my_range = None ->
  main py_int storage (initial prior (sectionname :: hyphname :: my_range :: rest))
  = (Raise ValueError,
     mkWorld rest header_prompts 3
       (prior ++ section_block sectionname hyphname sect) Opened).
Proof.
  intros Hs Hn. rewrite (main_header _ _ _ _ sect) by exact Hs.
  unfold int. now rewrite Hn, bind_raise.
Qed.

(** *** The file object *)

Lemma keeps_ret {A} (a : A) : keeps_handle (ret a).
Proof. intros w r w' H; now inversion H. Qed.

Lemma keeps_raise {A} (e : exn) : keeps_handle (@raise A e).
Proof. intros w r w' H; now inversion H. Qed.

Lemma keeps_bind {A B} (m : M A) (k : A -> M B) :
  keeps_handle m -> (forall a, keeps_handle (k a)) -> keeps_handle (bind m k).
Proof.
  intros Hm Hk w r w' H. unfold bind in H.
  destruct (m w) as [[a|e] w1] eqn:E.
  - rewrite (Hk a _ _ _ H). apply (Hm _ _ _ E).
  - inversion H; subst. apply (Hm _ _ _ E).
Qed.

Lemma keeps_input (p : str) : keeps_handle (input p).
Proof.
  intros w r w' H. unfold input in H.
  destruct (stdin w); inversion H; reflexivity.
Qed.

Lemma keeps_write (s : str) : keeps_handle (write s).
Proof.
  intros w r w' H. unfold write in H.
  destruct (handle w) eqn:E; inversion H; subst; cbn; congruence.
Qed.

Lemma keeps_index (l : list str) (i : nat) : keeps_handle (index l i).
Proof.
  unfold index. destruct (nth_error l i);
    [apply keeps_ret|apply keeps_raise].
Qed.

Lemma keeps_int (s : str) : keeps_handle (int py_int s).
Proof.
  unfold int. destruct (py_int s); [apply keeps_ret|apply keeps_raise].
Qed.

Lemma keeps_open_read (f : str) : keeps_handle (open_read storage f).
Proof.
  intros w r w' H. unfold open_read in H.
  destruct (storage (clock w) f); inversion H; reflexivity.
Qed.

Lemma keeps_for_each {A} (xs : list A) (body : A -> M unit) :
  (forall x, keeps_handle (body x)) -> keeps_handle (for_each xs body).
Proof.
  intros Hb. induction xs as [|x xs IH]; cbn [for_each].
  - apply keeps_ret.
  - apply keeps_bind; auto.
Qed.

Create HintDb keeps.
#[local] Hint Resolve keeps_ret keeps_raise keeps_input keeps_write
  keeps_index keeps_int keeps_open_read : keeps.

Ltac keeps_step :=
  first [ solve [auto with keeps]
        | apply keeps_for_each; intros ?
        | apply keeps_bind; [|intros ?] ].

Lemma keeps_option_body (i : nat) (st : opts) :
  keeps_handle (option_body storage i st).
Proof. unfold option_body. cbv zeta. repeat keeps_step. Qed.

Lemma keeps_option_loop (idx : list nat) :
  forall st, keeps_handle (option_loop storage idx st).
Proof.
  induction idx as [|i idx IH]; intros st; cbn [option_loop].
  - apply keeps_ret.
  - apply keeps_bind; [apply keeps_option_body|exact IH].
Qed.

Lemma closes_close : closes_at_end close.
Proof.
  intros w r w' Hw H. unfold close in H. rewrite Hw in H.
  inversion H; subst. now left.
Qed.

Lemma closes_bind {A} (m : M A) (k : A -> M unit) :
  keeps_handle m -> (forall a, closes_at_end (k a)) ->
  closes_at_end (bind m k).
Proof.
  intros Hm Hk w r w' Hw H. unfold bind in H.
  destruct (m w) as [[a|e] w1] eqn:E.
  - apply (Hk a w1); [|exact H]. rewrite (Hm _ _ _ E). exact Hw.
  - inversion H; subst. right. exists e. split; [reflexivity|].
    rewrite (Hm _ _ _ E). exact Hw.
Qed.

(** *** What the output file held before *)

Lemma framed_ret {A} (a : A) : framed (ret a).
Proof. intros p w; reflexivity. Qed.

Lemma framed_raise {A} (e : exn) : framed (@raise A e).
Proof. intros p w; reflexivity. Qed.

Lemma framed_bind {A B} (m : M A) (k : A -> M B) :
  framed m -> (forall a, framed (k a)) -> framed (bind m k).
Proof.
  intros Hm Hk p w. unfold bind. rewrite Hm.
  destruct (m w) as [[a|e] w1]; cbn [fst snd]; [apply Hk|reflexivity].
Qed.

Lemma framed_input (q : str) : framed (input q).
Proof. intros p w. unfold input, shift. cbn. now destruct (stdin w). Qed.

Lemma framed_open_append : framed open_append.
Proof. intros p w; reflexivity. Qed.

Lemma framed_write (s : str) : framed (write s).
Proof.
  intros p [si so clk out []]; unfold write, shift;
    cbn [fst snd handle output stdin stdout clock]; try reflexivity.
  now rewrite app_assoc.
Qed.

Lemma framed_close : framed close.
Proof. intros p [si so clk out []]; reflexivity. Qed.

Lemma framed_index (l : list str) (i : nat) : framed (index l i).
Proof.
  unfold index. destruct (nth_error l i);
    [apply framed_ret|apply framed_raise].
Qed.

Lemma framed_int (s : str) : framed (int py_int s).
Proof.
  unfold int. destruct (py_int s); [apply framed_ret|apply framed_raise].
Qed.

Lemma framed_open_read (f : str) : framed (open_read storage f).
Proof.
  intros p w. unfold open_read, shift. cbn.
  now destruct (storage (clock w) f).
Qed.

Lemma framed_for_each {A} (xs : list A) (body : A -> M unit) :
  (forall x, framed (body x)) -> framed (for_each xs body).
Proof.
  intros Hb. induction xs as [|x xs IH]; cbn [for_each].
  - apply framed_ret.
  - apply framed_bind; auto.
Qed.

Create HintDb framed.
#[local] Hint Resolve framed_ret framed_raise framed_input framed_write
  framed_index framed_int framed_open_read framed_open_append framed_close
  : framed.

Ltac framed_step :=
  first [ solve [auto with framed]
        | apply framed_for_each; intros ?
        | apply framed_bind; [|intros ?] ].

Lemma framed_option_body (i : nat) (st : opts) :
  framed (option_body storage i st).
Proof. unfold option_body. cbv zeta. repeat framed_step. Qed.

Lemma framed_option_loop (idx : list nat) :
  forall st, framed (option_loop storage idx st).
Proof.
  induction idx as [|i idx IH]; intros st; cbn [option_loop].
  - apply framed_ret.
  - apply framed_bind; [apply framed_option_body|exact IH].
Qed.

Lemma framed_main : framed (main py_int storage).
Proof.
  unfold main.
  repeat first [ apply framed_option_loop | framed_step ].
Qed.

End ScriptFacts.

(** * The properties of the script *)

Section Rendering.

(** C1, as stated, fails: text and values free of placeholder names are not
    enough.  In the line [SECTION_HYPH] [SECTION_NAME] [ENED_NAME] the only
    placeholder is [SECTION_NAME]; with an empty section name the first
    replacement joins the text around it into [SECTION_HYPHENED_NAME], which
    the second replacement then takes for a placeholder. *)
Lemma render_joins_text_into_token :
  plain_token_free Demo.joined_line = true
  /\ token_free (lit "") = true
  /\ token_free (lit "tcp-options") = true
  /\ instantiate (assign (section_steps (lit "") (lit "tcp-options")))
       Demo.joined_line
     = lit "SECTION_HYPHENED_NAME"
  /\ render_section_line (lit "") (lit "tcp-options")
       (flat Demo.joined_line)
     = lit "tcp-options"
  /\ render_section_line (lit "") (lit "tcp-options")
       (flat Demo.joined_line)
     <> instantiate (assign (section_steps (lit "") (lit "tcp-options")))
          Demo.joined_line.
Proof.
  split; [reflexivity|]. split; [reflexivity|]. split; [reflexivity|].
  split; [reflexivity|]. split; [reflexivity|].
  intros H. vm_compute in H. discriminate H.
Qed.

(** The same with a value that is not empty: the value [SECTION_HYPHENED]
    holds no placeholder name, and completes one with the text behind it. *)
Example render_value_completes_token :
  plain_token_free [Hole SECTION_NAME; Plain (lit "_NAME")] = true
  /\ token_free (lit "SECTION_HYPHENED") = true
  /\ render_section_line (lit "SECTION_HYPHENED") (lit "x")
       (flat [Hole SECTION_NAME; Plain (lit "_NAME")])
     = lit "x".
Proof. split; [reflexivity|]. split; reflexivity. Qed.

(** C1 (amended): for a template line cut into plain text and placeholders,
    and values such that at each replacement step the name being replaced
    occurs in the line as it then stands only at its placeholders, rendering
    fills every placeholder of the section template ([SECTION_NAME],
    [SECTION_HYPHENED_NAME]) and of the entry template ([OPT_FORMAT],
    [OPT_ARG], [OPT_DESC], [OPT_NAME]) with its value once and leaves the
    plain text as it is; the two loops over the lines of a template write
    the rendered lines in the order of the template, and a line terminator
    stays at the end of its line. *)
Theorem render_fills_placeholders
        (segs_s segs_e : list seg)
        (sectionname hyphname fmt arg desc nm : str)
        (st : opts) (i : nat) :
  stable (section_steps sectionname hyphname) segs_s = true ->
  stable (entry_steps fmt arg desc nm) segs_e = true ->
  nth_error (optformat st) i = Some fmt ->
  nth_error (optarg st) i = Some arg ->
  nth_error (optdesc st) i = Some desc ->
  nth_error (optname st) i = Some nm ->
  render_section_line sectionname hyphname (flat segs_s)
    = instantiate (assign (section_steps sectionname hyphname)) segs_s
  /\ render_entry_line fmt arg desc nm (flat segs_e)
    = instantiate (assign (entry_steps fmt arg desc nm)) segs_e
  /\ (forall content si so clk out,
        for_each (readlines content)
          (fun line => write (render_section_line sectionname hyphname line))
          (mkWorld si so clk out Opened)
        = (Ok tt,
           mkWorld si so clk
             (out ++ List.concat
                       (map (render_section_line sectionname hyphname)
                          (readlines content)))
             Opened))
  /\ (forall content si so clk out,
        for_each (readlines content)
          (fun line =>
             fmt <- index (optformat st) i ;;
             arg <- index (optarg st) i ;;
             desc <- index (optdesc st) i ;;
             nm <- index (optname st) i ;;
             write (render_entry_line fmt arg desc nm line))
          (mkWorld si so clk out Opened)
        = (Ok tt,
           mkWorld si so clk
             (out ++ List.concat
                       (map (render_entry_line fmt arg desc nm)
                          (readlines content)))
             Opened))
  /\ (forall content, List.concat (readlines content) = content)
  /\ (forall body,
        render_section_line sectionname hyphname (body ++ [newline])
        = render_section_line sectionname hyphname body ++ [newline])
  /\ (forall body,
        render_entry_line fmt arg desc nm (body ++ [newline])
        = render_entry_line fmt arg desc nm body ++ [newline]).
Proof.
  intros Hs He H1 H2 H3 H4.
  split; [|split; [|split; [|split; [|split; [|split]]]]].
  - rewrite render_section_line_steps, apply_steps_stable by exact Hs.
    apply flat_fill_steps.
  - rewrite render_entry_line_steps, apply_steps_stable by exact He.
    apply flat_fill_steps.
  - intros; apply for_each_write.
  - intros; now apply for_each_entry_lines.
  - apply concat_readlines.
  - apply render_section_line_snoc.
  - apply render_entry_line_snoc.
Qed.

(** The step for [OPT_ARG] by itself: the line as the [OPT_FORMAT] step
    leaves it is cut at the occurrences of [OPT_ARG]; with an empty argument
    name the pieces are put together with nothing between them, with any
    other argument name with [<replaceable>] + name + [</replaceable>]
    between them.  The steps for [OPT_DESC] and [OPT_NAME] come after. *)
Lemma opt_arg_step_pieces (fmt desc nm line : str) :
  let l1 := replace (name OPT_FORMAT) fmt line in
  let pieces := split (name OPT_ARG) l1 in
  l1 = join (name OPT_ARG) pieces
  /\ Forall (fun p => occurs (name OPT_ARG) p = false) pieces
  /\ render_entry_line fmt [] desc nm line
     = replace (name OPT_NAME) nm
         (replace (name OPT_DESC) desc (List.concat pieces))
  /\ (forall c a,
        render_entry_line fmt (c :: a) desc nm line
        = replace (name OPT_NAME) nm
            (replace (name OPT_DESC) desc
               (join (lit "<replaceable>" ++ (c :: a) ++ lit "</replaceable>")
                  pieces))).
Proof.
  intros l1 pieces.
  assert (Hne : name OPT_ARG <> []) by apply name_nonempty.
  split; [|split; [|split]].
  - unfold pieces, split. now rewrite join_split_go.
  - apply split_go_pieces, Hne.
  - unfold render_entry_line, arg_step. fold l1.
    do 2 f_equal. change (replace (name OPT_ARG) [] l1)
      with (replace_go (name OPT_ARG) [] 0 l1).
    rewrite replace_go_join. fold (split (name OPT_ARG) l1). fold pieces.
    clear. induction pieces as [|p [|q ps] IH]; cbn in *.
    + reflexivity.
    + now rewrite app_nil_r.
    + now rewrite <- IH.
  - intros c a. unfold render_entry_line, arg_step. fold l1.
    do 2 f_equal.
    change (replace (name OPT_ARG) ?v l1)
      with (replace_go (name OPT_ARG) v 0 l1).
    now rewrite replace_go_join.
Qed.

Lemma instantiate_ext (V V' : token -> option str) (segs : list seg) :
  (forall k, V k = V' k) -> instantiate V segs = instantiate V' segs.
Proof.
  intros H. induction segs as [|[t|k] segs IH]; [reflexivity| |];
    rewrite !instantiate_cons, IH, ?H; reflexivity.
Qed.



(** C10: the replacements of a line are done one after the other, in the
    order [SECTION_NAME], [SECTION_HYPHENED_NAME] and [OPT_FORMAT],
    [OPT_ARG], [OPT_DESC], [OPT_NAME]: a placeholder name brought in by the
    value of an earlier step is replaced by a later step (a format that is
    [OPT_DESC] ends up as the description, a section name that is
    [SECTION_HYPHENED_NAME] as the hyphened name), and one brought in by a
    later step stays. *)
Theorem replacements_are_sequential :
  (forall sectionname hyphname line,
      render_section_line sectionname hyphname line
      = replace (name SECTION_HYPHENED_NAME) hyphname
          (replace (name SECTION_NAME) sectionname line))
  /\ (forall fmt arg desc nm line,
        render_entry_line fmt arg desc nm line
        = replace (name OPT_NAME) nm
            (replace (name OPT_DESC) desc
               (replace (name OPT_ARG) (arg_markup arg)
                  (replace (name OPT_FORMAT) fmt line))))
  /\ (forall arg desc nm,
        render_entry_line (name OPT_DESC) arg desc nm (name OPT_FORMAT)
        = replace (name OPT_NAME) nm desc)
  /\ (forall hyphname,
        render_section_line (name SECTION_HYPHENED_NAME) hyphname
          (name SECTION_NAME)
        = hyphname)
  /\ (forall fmt arg nm,
        render_entry_line fmt arg (name OPT_FORMAT) nm (name OPT_DESC)
        = name OPT_FORMAT)
  /\ render_entry_line (lit "x-OPT_DESC-y") (lit "") (lit "TCP Connect Mode")
       (lit "tcp connect") (lit "<option>--OPT_FORMAT</option>")
     = lit "<option>--x-TCP Connect Mode-y</option>".
Proof.
  split; [|split; [|split; [|split; [|split]]]].
  - reflexivity.
  - intros. unfold render_entry_line. now rewrite arg_step_markup.
  - intros arg desc nm. unfold render_entry_line.
    rewrite arg_step_markup.
    rewrite (replace_exact (name OPT_FORMAT)) by apply name_nonempty.
    rewrite (replace_absent (name OPT_ARG)) by reflexivity.
    now rewrite replace_exact by apply name_nonempty.
  - intros hyphname. unfold render_section_line.
    rewrite (replace_exact (name SECTION_NAME)) by apply name_nonempty.
    now rewrite replace_exact by apply name_nonempty.
  - intros fmt arg nm. unfold render_entry_line.
    rewrite arg_step_markup.
    rewrite (replace_absent (name OPT_FORMAT)) by reflexivity.
    rewrite (replace_absent (name OPT_ARG)) by reflexivity.
    rewrite (replace_exact (name OPT_DESC)) by apply name_nonempty.
    now rewrite replace_absent by reflexivity.
  - reflexivity.
Qed.

End Rendering.

Section Runs.

Variable py_int : str -> option Z.
Variable storage : nat -> str -> option str.

(** C2: when the count typed is an integer [N >= 0] and the operator answers
    for [N] options, the run appends the rendered section template, then the
    [N] option blocks in the order of the answers (each rendered from the
    entry template as stored at its turn), then the two closing literals,
    and nothing else; with [N = 0] the closing literals follow the section
    block at once. *)
Theorem options_in_order_then_closing
        (prior sectionname hyphname my_range sect : str) (N : Z)
        (entries : list (str * str * str * str)) (tmpls : list str)
        (rest : list str) :
  (0 <= N)%Z ->
  py_int my_range = Some N ->
  List.length entries = Z.to_nat N ->
  storage 2 section_template = Some sect ->
  List.length tmpls = List.length entries ->
  (forall j c, nth_error tmpls j = Some c ->
               storage (3 + 4 * (j + 1)) entry_template = Some c) ->
  let blocks :=
    map (fun p => entry_block (fst p) (snd p)) (combine tmpls entries) in
  main py_int storage
    (initial prior
       (sectionname :: hyphname :: my_range ::
        flat_map answers_of entries ++ rest))
  = (Ok tt,
     mkWorld rest
       (header_prompts ++ flat_map (fun _ => option_prompts) entries)
       (3 + 4 * List.length entries)
       (prior ++ section_block sectionname hyphname sect
          ++ List.concat blocks ++ line1 ++ line2)
       Closed)
  /\ Z.of_nat (List.length blocks) = N
  /\ (N = 0%Z -> List.concat blocks = []).
Proof.
  intros HN Hint Hlen Hs Htm Hst blocks.
  split; [|split].
  - now apply main_ok with (n := N).
  - unfold blocks. rewrite length_map, length_combine, Htm, Hlen. lia.
  - intros ->. destruct entries; [|discriminate Hlen].
    unfold blocks. now rewrite combine_nil.
Qed.

(** C4: when the text typed for the count is no integer, the run stops with
    [ValueError] right there: the three prompts before the loop have been
    shown and no other, no further answer has been taken, and the rendered
    section template is in the output file. *)
Theorem bad_count_stops_after_section
        (prior sectionname hyphname my_range sect : str) (rest : list str) :
  storage 2 section_template = Some sect ->
  py_int my_range = None ->
  main py_int storage (initial prior (sectionname :: hyphname :: my_range :: rest))
  = (Raise ValueError,
     mkWorld rest header_prompts 3
       (prior ++ section_block sectionname hyphname sect) Opened).
Proof. apply main_bad_count. Qed.


(** C7: what the output file held before the run is kept, and what the run
    writes comes after it: the run on a file that holds [prior] ends as the
    run on an empty file does, with [prior] in front of the output. *)
Theorem append_keeps_prior_content (prior : str) (answers : list str) :
  main py_int storage (initial prior answers)
  = (fst (main py_int storage (initial [] answers)),
     let w := snd (main py_int storage (initial [] answers)) in
     mkWorld (stdin w) (stdout w) (clock w) (prior ++ output w) (handle w)).
Proof.
  pose proof (framed_main py_int storage prior (initial [] answers)) as H.
  unfold shift in H at 1. cbn [initial stdin stdout clock output handle] in H.
  rewrite app_nil_r in H. exact H.
Qed.

(** C8: at every turn of the loop over the options the entry template is
    read anew: the block of turn [j] is rendered from the contents the
    template has in storage when the four answers of that turn have been
    given, whatever it held at the turns before. *)
Theorem entry_template_read_every_turn
        (entries : list (str * str * str * str)) (tmpls : list str)
        (i : nat) (st : opts) (r so : list str) (clk : nat) (out : str) :
  List.length tmpls = List.length entries ->
  List.length (optformat st) = i -> List.length (optarg st) = i ->
  List.length (optdesc st) = i -> List.length (optname st) = i ->
  (forall j c, nth_error tmpls j = Some c ->
               storage (clk + 4 * (j + 1)) entry_template = Some c) ->
  exists st',
    option_loop storage (seq i (List.length entries)) st
      (mkWorld (flat_map answers_of entries ++ r) so clk out Opened)
    = (Ok st',
       mkWorld r (so ++ flat_map (fun _ => option_prompts) entries)
         (clk + 4 * List.length entries)
         (out ++ List.concat
                   (map (fun p => entry_block (fst p) (snd p))
                      (combine tmpls entries)))
         Opened).
Proof. apply option_loop_ok. Qed.

(** C9: a count that is a negative integer raises nothing: no option is
    asked for, the closing literals follow the section block, and the run
    ends as the run with a count of 0 does. *)
Theorem negative_count_like_zero
        (prior sectionname hyphname my_range zero sect : str) (n : Z)
        (rest : list str) :
  storage 2 section_template = Some sect ->
  py_int my_range = Some n ->
  (n < 0)%Z ->
  py_int zero = Some 0%Z ->
  main py_int storage (initial prior (sectionname :: hyphname :: my_range :: rest))
  = (Ok tt,
     mkWorld rest header_prompts 3
       (prior ++ section_block sectionname hyphname sect ++ line1 ++ line2)
       Closed)
  /\ main py_int storage
       (initial prior (sectionname :: hyphname :: my_range :: rest))
     = main py_int storage (initial prior (sectionname :: hyphname :: zero :: rest)).
Proof.
  intros Hs Hn Hneg Hz.
  assert (H : forall cnt k, py_int cnt = Some k -> (k <= 0)%Z ->
            main py_int storage
              (initial prior (sectionname :: hyphname :: cnt :: rest))
            = (Ok tt,
               mkWorld rest header_prompts 3
                 (prior ++ section_block sectionname hyphname sect
                    ++ line1 ++ line2) Closed)).
  { intros cnt k Hk Hle.
    pose proof (main_ok py_int storage prior sectionname hyphname cnt sect k [] []
                  rest Hs Hk) as Hm.
    cbn [flat_map app List.length combine map List.concat] in Hm.
    rewrite app_nil_r in Hm. apply Hm.
    - destruct k; try reflexivity; lia.
    - reflexivity.
    - intros [|j] c Hc; discriminate Hc. }
  split.
  - apply (H my_range n Hn). lia.
  - rewrite (H my_range n Hn) by lia. rewrite (H zero 0%Z Hz) by lia.
    reflexivity.
Qed.

End Runs.

(** * The sample session *)

Section Session.

Lemma render_fills_placeholders_witness :
  stable (section_steps (lit "TCP Options") (lit "tcp-options"))
    Demo.section_line = true
  /\ stable (entry_steps (lit "tcp-connect") (lit "portnumber")
               (lit "TCP Connect Mode") (lit "tcp connect"))
       Demo.entry_line = true
  /\ nth_error (optformat Demo.one_option) 0 = Some (lit "tcp-connect")
  /\ nth_error (optarg Demo.one_option) 0 = Some (lit "portnumber")
  /\ nth_error (optdesc Demo.one_option) 0 = Some (lit "TCP Connect Mode")
  /\ nth_error (optname Demo.one_option) 0 = Some (lit "tcp connect")
  /\ render_section_line (lit "TCP Options") (lit "tcp-options")
       (flat Demo.section_line)
     = lit "  <refsect1 id='man-tcp-options'><title>TCP Options</title>"
         ++ Demo.nl
  /\ render_entry_line (lit "tcp-connect") (lit "portnumber")
       (lit "TCP Connect Mode") (lit "tcp connect") (flat Demo.entry_line)
     = lit "      <term><option>--tcp-connect</option> <replaceable>portnumber</replaceable> (TCP Connect Mode)<primary>tcp connect</primary></term>"
         ++ Demo.nl.
Proof.
  assert (Hs : stable (section_steps (lit "TCP Options") (lit "tcp-options"))
                 Demo.section_line = true) by (vm_compute; reflexivity).
  assert (He : stable (entry_steps (lit "tcp-connect") (lit "portnumber")
                         (lit "TCP Connect Mode") (lit "tcp connect"))
                 Demo.entry_line = true) by (vm_compute; reflexivity).
  split; [exact Hs|]. split; [exact He|].
  split; [reflexivity|]. split; [reflexivity|].
  split; [reflexivity|]. split; [reflexivity|].
  destruct (render_fills_placeholders _ _ _ _ _ _ _ _ Demo.one_option 0 Hs He
              eq_refl eq_refl eq_refl eq_refl)
    as (H1 & H2 & _).
  split; [rewrite H1|rewrite H2]; vm_compute; reflexivity.
Defined.

Lemma options_in_order_then_closing_witness :
  (0 <= 2)%Z
  /\ PyInt.int (lit "2") = Some 2%Z
  /\ List.length [Demo.tcp_connect; Demo.udp] = Z.to_nat 2
  /\ Demo.storage 2 section_template = Some Demo.section_xml
  /\ List.length [Demo.entry_xml; Demo.entry_xml]
     = List.length [Demo.tcp_connect; Demo.udp]
  /\ (forall j c,
        nth_error [Demo.entry_xml; Demo.entry_xml] j = Some c ->
        Demo.storage (3 + 4 * (j + 1)) entry_template = Some c)
  /\ main PyInt.int Demo.storage
       (initial (lit "<!-- old -->")
          (Demo.header "2"
             ++ answers_of Demo.tcp_connect ++ answers_of Demo.udp))
     = (Ok tt,
        mkWorld []
          (header_prompts ++ option_prompts ++ option_prompts)
          11
          (lit "<!-- old -->"
             ++ section_block (lit "TCP Options") (lit "tcp-options")
                  Demo.section_xml
             ++ entry_block Demo.entry_xml Demo.tcp_connect
             ++ entry_block Demo.entry_xml Demo.udp
             ++ line1 ++ line2)
          Closed).
Proof.
  assert (Hst : forall j c,
             nth_error [Demo.entry_xml; Demo.entry_xml] j = Some c ->
             Demo.storage (3 + 4 * (j + 1)) entry_template = Some c).
  { intros [|[|[|j]]] c H; try discriminate H;
      injection H as <-; reflexivity. }
  split; [lia|]. split; [reflexivity|]. split; [reflexivity|].
  split; [reflexivity|]. split; [reflexivity|]. split; [exact Hst|].
  destruct (options_in_order_then_closing PyInt.int Demo.storage (lit "<!-- old -->")
              (lit "TCP Options") (lit "tcp-options") (lit "2")
              Demo.section_xml 2 [Demo.tcp_connect; Demo.udp]
              [Demo.entry_xml; Demo.entry_xml] [])
    as (H & _); [lia|reflexivity|reflexivity|reflexivity|reflexivity|
                  exact Hst|].
  etransitivity; [exact H|]. vm_compute. reflexivity.
Defined.

Lemma bad_count_stops_after_section_witness :
  Demo.storage 2 section_template = Some Demo.section_xml
  /\ PyInt.int (lit "abc") = None
  /\ main PyInt.int Demo.storage
       (initial (lit "<!-- old -->")
          (Demo.header "abc" ++ answers_of Demo.tcp_connect))
     = (Raise ValueError,
        mkWorld (answers_of Demo.tcp_connect) header_prompts 3
          (lit "<!-- old -->"
             ++ section_block (lit "TCP Options") (lit "tcp-options")
                  Demo.section_xml)
          Opened).
Proof.
  split; [reflexivity|]. split; [reflexivity|].
  apply (bad_count_stops_after_section PyInt.int Demo.storage (lit "<!-- old -->")
           (lit "TCP Options") (lit "tcp-options") (lit "abc")
           Demo.section_xml (answers_of Demo.tcp_connect));
    reflexivity.
Defined.


(** C6: where the script departs from the claim.  A run with no option on
    the sample section template: the two closing literals are written
    without line terminators, so the output ends in one unterminated line
    that holds both. *)
Theorem closing_literals_share_one_line :
  fst (Demo.run (Demo.header "0")) = Ok tt
  /\ readlines (output (snd (Demo.run (Demo.header "0"))))
     = [lit "  <refsect1 id='man-tcp-options'>" ++ Demo.nl;
        lit "    <title>TCP Options</title>" ++ Demo.nl;
        lit "    <variablelist>" ++ Demo.nl;
        lit "    </variablelist>   </refsect1>"]
  /\ ~ In newline (line1 ++ line2).
Proof.
  split; [reflexivity|]. split; [vm_compute; reflexivity|].
  intros H. vm_compute in H.
  repeat (destruct H as [H|H]; [discriminate H|]). exact H.
Qed.

Lemma entry_template_read_every_turn_witness :
  List.length [Demo.entry_xml; Demo.entry_xml']
  = List.length [Demo.tcp_connect; Demo.udp]
  /\ (forall j c,
        nth_error [Demo.entry_xml; Demo.entry_xml'] j = Some c ->
        Demo.edited_storage (3 + 4 * (j + 1)) entry_template = Some c)
  /\ exists st',
      option_loop Demo.edited_storage (seq 0 2) (mkOpts [] [] [] [])
        (mkWorld (answers_of Demo.tcp_connect ++ answers_of Demo.udp)
           header_prompts 3 [] Opened)
      = (Ok st',
         mkWorld [] (header_prompts ++ option_prompts ++ option_prompts) 11
           (entry_block Demo.entry_xml Demo.tcp_connect
              ++ entry_block Demo.entry_xml' Demo.udp)
           Opened).
Proof.
  assert (Hst : forall j c,
             nth_error [Demo.entry_xml; Demo.entry_xml'] j = Some c ->
             Demo.edited_storage (3 + 4 * (j + 1)) entry_template = Some c).
  { intros [|[|[|j]]] c H; try discriminate H;
      injection H as <-; reflexivity. }
  split; [reflexivity|]. split; [exact Hst|].
  destruct (entry_template_read_every_turn Demo.edited_storage
              [Demo.tcp_connect; Demo.udp] [Demo.entry_xml; Demo.entry_xml']
              0 (mkOpts [] [] [] []) [] header_prompts 3 [])
    as [st' H]; [reflexivity|reflexivity|reflexivity|reflexivity|
                  reflexivity|exact Hst|].
  exists st'. etransitivity; [exact H|]. vm_compute. reflexivity.
Defined.

(** The edit of the entry template between two turns shows in the output. *)
Example reread_is_observable :
  output
    (snd (main PyInt.int Demo.edited_storage
            (initial []
               (Demo.header "2"
                  ++ answers_of Demo.tcp_connect ++ answers_of Demo.udp))))
  = section_block (lit "TCP Options") (lit "tcp-options") Demo.section_xml
      ++ lit "      <term><option>--tcp-connect</option> <replaceable>portnumber</replaceable> (TCP Connect Mode)"
      ++ Demo.nl
      ++ lit "      <indexterm><primary>tcp connect</primary></indexterm></term>"
      ++ Demo.nl
      ++ lit "      <term>--udp</term>" ++ Demo.nl
      ++ line1 ++ line2.
Proof. vm_compute. reflexivity. Qed.

Lemma negative_count_like_zero_witness :
  Demo.storage 2 section_template = Some Demo.section_xml
  /\ PyInt.int (lit "-3") = Some (-3)%Z
  /\ (-3 < 0)%Z
  /\ PyInt.int (lit "0") = Some 0%Z
  /\ main PyInt.int Demo.storage
       (initial (lit "<!-- old -->")
          (Demo.header "-3" ++ answers_of Demo.tcp_connect))
     = (Ok tt,
        mkWorld (answers_of Demo.tcp_connect) header_prompts 3
          (lit "<!-- old -->"
             ++ section_block (lit "TCP Options") (lit "tcp-options")
                  Demo.section_xml
             ++ line1 ++ line2)
          Closed)
  /\ main PyInt.int Demo.storage
       (initial (lit "<!-- old -->")
          (Demo.header "-3" ++ answers_of Demo.tcp_connect))
     = main PyInt.int Demo.storage
         (initial (lit "<!-- old -->")
            (Demo.header "0" ++ answers_of Demo.tcp_connect)).
Proof.
  split; [reflexivity|]. split; [reflexivity|]. split; [lia|].
  split; [reflexivity|].
  apply (negative_count_like_zero PyInt.int Demo.storage (lit "<!-- old -->")
           (lit "TCP Options") (lit "tcp-options") (lit "-3") (lit "0")
           Demo.section_xml (-3) (answers_of Demo.tcp_connect));
    try reflexivity; lia.
Defined.

(** The scenario with one option, with and without an argument name. *)
Example scenario_one_option :
  output
    (snd (main PyInt.int Demo.storage
            (initial [] (Demo.header "1" ++ answers_of Demo.tcp_connect))))
  = lit "  <refsect1 id='man-tcp-options'>" ++ Demo.nl
      ++ lit "    <title>TCP Options</title>" ++ Demo.nl
      ++ lit "    <variablelist>" ++ Demo.nl
      ++ lit "      <term><option>--tcp-connect</option> <replaceable>portnumber</replaceable> (TCP Connect Mode)"
      ++ Demo.nl
      ++ lit "      <indexterm><primary>tcp connect</primary></indexterm></term>"
      ++ Demo.nl
      ++ lit "    </variablelist>   </refsect1>".
Proof. vm_compute. reflexivity. Qed.

Example scenario_empty_argument :
  entry_block Demo.entry_xml Demo.udp
  = lit "      <term><option>--udp</option>  (UDP Mode)" ++ Demo.nl
      ++ lit "      <indexterm><primary>udp mode</primary></indexterm></term>"
      ++ Demo.nl.
Proof. vm_compute. reflexivity. Qed.

Example replace_all_occurrences :
  replace (lit "ab") (lit "X") (lit "abcabab") = lit "XcXX".
Proof. reflexivity. Qed.

Example replace_non_overlapping :
  replace (lit "aa") (lit "b") (lit "aaa") = lit "ba".
Proof. reflexivity. Qed.

Example replace_empty_pattern :
  replace [] (lit "-") (lit "abc") = lit "-a-b-c-".
Proof. reflexivity. Qed.

Example split_example :
  split (lit "ab") (lit "abcabab") = [lit ""; lit "c"; lit ""; lit ""].
Proof. reflexivity. Qed.

Example readlines_example :
  readlines (lit "a" ++ [newline] ++ [newline] ++ lit "bc")
  = [lit "a" ++ [newline]; [newline]; lit "bc"].
Proof. reflexivity. Qed.

Example int_examples :
  map PyInt.int
    [lit "1_000"; lit "+7"; lit " 12 "; lit "-3"; lit "abc"; lit ""; lit "1 2";
     lit "1__0"; lit "3.5"]
  = [Some 1000%Z; Some 7%Z; Some 12%Z; Some (-3)%Z; None; None; None; None;
     None].
Proof. reflexivity. Qed.

End Session.

(** * Further facts about text *)

Section MoreTextFacts.

Lemma occurs_nil (old : str) : old <> [] -> occurs old [] = false.
Proof. destruct old; [easy|reflexivity]. Qed.

Lemma occurs_app_l (old a b : str) :
  occurs old a = true -> occurs old (a ++ b) = true.
Proof.
  induction a as [|c a IH].
  - cbn [occurs]. rewrite orb_false_r. intros H.
    destruct old; [now destruct b|discriminate H].
  - cbn [occurs app]. intros H; apply orb_prop in H as [H|H].
    + change (c :: a ++ b) with ((c :: a) ++ b).
      now rewrite (starts_with_extend _ _ b H).
    + rewrite (IH H). apply orb_true_r.
Qed.

Lemma occurs_app_r (old a b : str) :
  occurs old b = true -> occurs old (a ++ b) = true.
Proof.
  intros H. induction a as [|c a IH]; [exact H|].
  cbn [occurs app]. rewrite IH. apply orb_true_r.
Qed.

(** A text without an occurrence has none in any of its stretches. *)
Lemma occurs_stretch (old pre l post : str) :
  occurs old (pre ++ l ++ post) = false -> occurs old l = false.
Proof.
  intros H. destruct (occurs old l) eqn:E; [|reflexivity].
  rewrite (occurs_app_r old pre (l ++ post)) in H; [discriminate H|].
  now apply occurs_app_l.
Qed.

Lemma occurs_line (old content l : str) :
  occurs old content = false -> In l (readlines content) ->
  occurs old l = false.
Proof.
  intros H Hin. apply in_split in Hin as (ls1 & ls2 & Hls).
  pose proof (concat_readlines content) as Hc.
  rewrite Hls, concat_app in Hc. cbn [List.concat] in Hc.
  rewrite <- Hc in H. now apply occurs_stretch in H.
Qed.

(** Replacing a text by itself changes nothing. *)
Lemma replace_same (old s : str) : old <> [] -> replace old old s = s.
Proof.
  intros H. destruct old as [|a old]; [easy|].
  rewrite replace_nonempty, replace_go_join, join_split_go by easy.
  reflexivity.
Qed.

Lemma terminators_app (a b : str) :
  terminators (a ++ b) = terminators a + terminators b.
Proof. apply count_occ_app. Qed.

Lemma terminators_none (s : str) : ~ In newline s -> terminators s = 0.
Proof. intros H. now apply count_occ_not_In. Qed.

Lemma terminators_join (sep : str) (ps : list str) :
  terminators sep = 0 ->
  terminators (join sep ps) = terminators (List.concat ps).
Proof.
  intros Hsep. induction ps as [|p [|q ps] IH].
  - reflexivity.
  - cbn. now rewrite app_nil_r.
  - rewrite join_cons by easy.
    change (List.concat (p :: q :: ps)) with (p ++ List.concat (q :: ps)).
    rewrite (terminators_app p), (terminators_app sep), Hsep, IH.
    now rewrite terminators_app.
Qed.

(** Replacing a text without line terminators by another one keeps the
    line terminators of the whole. *)
Lemma terminators_replace (old new s : str) :
  old <> [] -> ~ In newline old -> ~ In newline new ->
  terminators (replace old new s) = terminators s.
Proof.
  intros Hne Hold Hnew. destruct old as [|a old]; [easy|].
  rewrite replace_nonempty, replace_go_join.
  rewrite terminators_join by now apply terminators_none.
  rewrite <- (terminators_join (a :: old)) by now apply terminators_none.
  now rewrite join_split_go.
Qed.

Lemma terminators_concat_map (f : str -> str) (ls : list str) :
  (forall l, terminators (f l) = terminators l) ->
  terminators (List.concat (map f ls)) = terminators (List.concat ls).
Proof.
  intros Hf. induction ls as [|l ls IH]; [reflexivity|].
  cbn [map List.concat]. now rewrite !terminators_app, Hf, IH.
Qed.

Lemma newline_not_in_markup (arg : str) :
  ~ In newline arg -> ~ In newline (arg_markup arg).
Proof.
  intros H. destruct arg as [|c a]; [exact H|].
  cbn [arg_markup]. rewrite !in_app_iff. intros [Hi|[Hi|Hi]].
  - vm_compute in Hi.
    repeat (destruct Hi as [Hi|Hi]; [discriminate Hi|]). exact Hi.
  - now apply H.
  - vm_compute in Hi.
    repeat (destruct Hi as [Hi|Hi]; [discriminate Hi|]). exact Hi.
Qed.

End MoreTextFacts.

(** * Further properties of rendering *)

Section MoreRendering.

(** X6: a section template in which no section placeholder occurs is
    appended as it is, and so is an entry template in which no entry
    placeholder occurs, whatever the answers. *)
Theorem template_without_placeholders_copied
        (content_s content_e sectionname hyphname : str)
        (e : str * str * str * str) :
  occurs (name SECTION_NAME) content_s = false ->
  occurs (name SECTION_HYPHENED_NAME) content_s = false ->
  occurs (name OPT_FORMAT) content_e = false ->
  occurs (name OPT_ARG) content_e = false ->
  occurs (name OPT_DESC) content_e = false ->
  occurs (name OPT_NAME) content_e = false ->
  section_block sectionname hyphname content_s = content_s
  /\ entry_block content_e e = content_e.
Proof.
  intros H1 H2 H3 H4 H5 H6.
  assert (Hid : forall (content : str) (f : str -> str),
             (forall l, In l (readlines content) -> f l = l) ->
             List.concat (map f (readlines content)) = content).
  { intros content f Hf. rewrite <- (concat_readlines content) at 2.
    f_equal. rewrite <- (map_id (readlines content)) at 2.
    now apply map_ext_in. }
  split.
  - apply Hid. intros l Hl. unfold render_section_line.
    rewrite (replace_absent (name SECTION_NAME))
      by now apply (occurs_line _ content_s).
    now rewrite replace_absent by now apply (occurs_line _ content_s).
  - destruct e as [[[fmt arg] desc] nm]. apply Hid. intros l Hl.
    unfold render_entry_line. rewrite arg_step_markup.
    rewrite (replace_absent (name OPT_FORMAT))
      by now apply (occurs_line _ content_e).
    rewrite (replace_absent (name OPT_ARG))
      by now apply (occurs_line _ content_e).
    rewrite (replace_absent (name OPT_DESC))
      by now apply (occurs_line _ content_e).
    now rewrite replace_absent by now apply (occurs_line _ content_e).
Qed.

(** X7: answers without a line terminator leave the line terminators of the
    templates alone: the section block and every option block have as many
    as the template they are rendered from. *)
Theorem rendering_keeps_terminators
        (content_s content_e sectionname hyphname fmt arg desc nm : str) :
  ~ In newline sectionname -> ~ In newline hyphname ->
  ~ In newline fmt -> ~ In newline arg ->
  ~ In newline desc -> ~ In newline nm ->
  terminators (section_block sectionname hyphname content_s)
    = terminators content_s
  /\ terminators (entry_block content_e (fmt, arg, desc, nm))
     = terminators content_e.
Proof.
  intros H1 H2 H3 H4 H5 H6.
  split.
  - unfold section_block. rewrite terminators_concat_map.
    + now rewrite concat_readlines.
    + intros l. unfold render_section_line.
      now rewrite !terminators_replace
        by (auto using name_nonempty, newline_not_in_name).
  - unfold entry_block. rewrite terminators_concat_map.
    + now rewrite concat_readlines.
    + intros l. unfold render_entry_line. rewrite arg_step_markup.
      now rewrite !terminators_replace
        by (auto using name_nonempty, newline_not_in_name,
             newline_not_in_markup).
Qed.

(** X11: answering a prompt of the section with the name of its own
    placeholder leaves the section template as it is. *)
Theorem own_names_keep_section_template (content : str) :
  section_block (name SECTION_NAME) (name SECTION_HYPHENED_NAME) content
  = content.
Proof.
  unfold section_block.
  rewrite <- (concat_readlines content) at 2. f_equal.
  rewrite <- (map_id (readlines content)) at 2.
  apply map_ext. intros l. unfold render_section_line.
  now rewrite !replace_same by apply name_nonempty.
Qed.

End MoreRendering.

(** * Further facts about the loop over the options *)

Section MoreLoopFacts.

Variable storage : nat -> str -> option str.

Lemma bind_assoc {A B C} (m : M A) (f : A -> M B) (g : B -> M C)
      (w : World) :
  bind (bind m f) g w = bind m (fun a => bind (f a) g) w.
Proof. unfold bind. now destruct (m w) as [[a|e] w']. Qed.

Lemma bind_ext {A B} (m : M A) (f g : A -> M B) (w : World) :
  (forall a w', f a w' = g a w') -> bind m f w = bind m g w.
Proof. intros H. unfold bind. now destruct (m w) as [[a|e] w']. Qed.

(** The turns of two ranges one after the other. *)
Lemma option_loop_app (idx1 idx2 : list nat) :
  forall st w,
    option_loop storage (idx1 ++ idx2) st w
    = bind (option_loop storage idx1 st) (option_loop storage idx2) w.
Proof.
  induction idx1 as [|i idx1 IH]; intros st w; [reflexivity|].
  cbn [app option_loop]. rewrite bind_assoc.
  apply bind_ext. intros st' w'. apply IH.
Qed.

(** The loop with the four lists it leaves. *)
Lemma option_loop_lists (entries : list (str * str * str * str)) :
  forall (tmpls : list str) (i : nat) (st : opts) (r so : list str)
         (clk : nat) (out : str),
    List.length tmpls = List.length entries ->
    List.length (optformat st) = i -> List.length (optarg st) = i ->
    List.length (optdesc st) = i -> List.length (optname st) = i ->
    (forall j c, nth_error tmpls j = Some c ->
                 storage (clk + 4 * (j + 1)) entry_template = Some c) ->
    option_loop storage (seq i (List.length entries)) st
      (mkWorld (flat_map answers_of entries ++ r) so clk out Opened)
    = (Ok (collect st entries),
       mkWorld r (so ++ flat_map (fun _ => option_prompts) entries)
         (clk + 4 * List.length entries)
         (out ++ List.concat
                   (map (fun p => entry_block (fst p) (snd p))
                      (combine tmpls entries)))
         Opened).
Proof.
  induction entries as [|[[[fmt arg] desc] nm] entries IH];
    intros tmpls i st r so clk out Hlen H1 H2 H3 H4 Hst.
  - destruct tmpls; [|discriminate Hlen]. destruct st. unfold collect.
    cbn. now rewrite !app_nil_r, Nat.add_0_r.
  - destruct tmpls as [|c tmpls]; [discriminate Hlen|].
    cbn [List.length seq option_loop flat_map answers_of app].
    unfold bind at 1.
    rewrite (option_body_ok storage i st fmt arg desc nm c) by
      (auto; apply (Hst 0 c); reflexivity).
    rewrite (IH tmpls (S i)).
    + unfold collect.
      cbn [optformat optarg optdesc optname map format_of arg_of desc_of
             name_of combine List.concat fst snd].
      rewrite <- !app_assoc. cbn [app].
      do 2 f_equal. lia.
    + cbn in Hlen; lia.
    + cbn [optformat]. rewrite length_app; cbn; lia.
    + cbn [optarg]. rewrite length_app; cbn; lia.
    + cbn [optdesc]. rewrite length_app; cbn; lia.
    + cbn [optname]. rewrite length_app; cbn; lia.
    + intros j c' Hj.
      replace (clk + 4 + 4 * (j + 1)) with (clk + 4 * (S j + 1)) by lia.
      apply Hst. exact Hj.
Qed.

(** A turn at which the entry template cannot be opened: the four answers
    have been taken, nothing is written. *)
Lemma option_body_missing (i : nat) (st : opts) (fmt arg desc nm : str)
      (r so : list str) (clk : nat) (out : str) (h : hstate) :
  storage (clk + 4) entry_template = None ->
  option_body storage i st
    (mkWorld (fmt :: arg :: desc :: nm :: r) so clk out h)
  = (Raise IOError, mkWorld r (so ++ option_prompts) (clk + 4) out h).
Proof.
  intros Hst. unfold option_body. rewrite !bind_input.
  replace (S (S (S (S clk)))) with (clk + 4) by lia.
  rewrite bind_open_read_missing by exact Hst.
  now rewrite <- !app_assoc.
Qed.

(** A turn during which the answers run out. *)
Lemma option_body_eof (i : nat) (st : opts) (partial so : list str)
      (clk : nat) (out : str) (h : hstate) :
  List.length partial < 4 ->
  option_body storage i st (mkWorld partial so clk out h)
  = (Raise EOFError,
     mkWorld [] (so ++ firstn (S (List.length partial)) option_prompts)
       (clk + List.length partial) out h).
Proof.
  intros Hlen. unfold option_body.
  destruct partial as [|a1 [|a2 [|a3 [|a4 partial]]]];
    [| | | |cbn in Hlen; lia];
    rewrite ?bind_input; unfold bind, input;
    cbn [stdin stdout clock output handle List.length firstn option_prompts];
    rewrite <- ?app_assoc; cbn [app]; do 2 f_equal; lia.
Qed.

End MoreLoopFacts.

(** * Runs that stop early *)

Section EarlyStops.

Variable py_int : str -> option Z.
Variable storage : nat -> str -> option str.

(** A loop whose turn after those of [entries] raises. *)
Lemma option_loop_stops (entries : list (str * str * str * str))
      (tmpls : list str) (n i : nat) (st : opts) (r so : list str)
      (clk : nat) (out : str) (e : exn) (w' : World) :
  List.length entries < n ->
  List.length tmpls = List.length entries ->
  List.length (optformat st) = i -> List.length (optarg st) = i ->
  List.length (optdesc st) = i -> List.length (optname st) = i ->
  (forall j c, nth_error tmpls j = Some c ->
               storage (clk + 4 * (j + 1)) entry_template = Some c) ->
  option_body storage (i + List.length entries) (collect st entries)
    (mkWorld r (so ++ flat_map (fun _ => option_prompts) entries)
       (clk + 4 * List.length entries)
       (out ++ List.concat
                 (map (fun p => entry_block (fst p) (snd p))
                    (combine tmpls entries)))
       Opened)
  = (Raise e, w') ->
  option_loop storage (seq i n) st
    (mkWorld (flat_map answers_of entries ++ r) so clk out Opened)
  = (Raise e, w').
Proof.
  intros Hn Hlen H1 H2 H3 H4 Hst Hbody.
  replace n with (List.length entries + S (n - S (List.length entries)))
    by lia.
  rewrite seq_app, option_loop_app. unfold bind at 1.
  rewrite (option_loop_lists storage entries tmpls) by assumption.
  cbn [seq option_loop]. unfold bind at 1. now rewrite Hbody.
Qed.

Lemma main_after_count (prior sectionname hyphname my_range sect : str)
      (n : Z) (rest : list str) :
  storage 2 section_template = Some sect ->
  py_int my_range = Some n ->
  main py_int storage (initial prior (sectionname :: hyphname :: my_range :: rest))
  = (option_loop storage (seq 0 (Z.to_nat n)) (mkOpts [] [] [] []) ;;
     write line1 ;; write line2 ;; close)
      (mkWorld rest header_prompts 3
         (prior ++ section_block sectionname hyphname sect) Opened).
Proof.
  intros Hs Hn. rewrite (main_header py_int storage _ _ _ _ sect) by exact Hs.
  unfold int. now rewrite Hn, bind_ret.
Qed.

Lemma main_no_section (prior sectionname hyphname : str)
      (rest : list str) :
  storage 2 section_template = None ->
  main py_int storage (initial prior (sectionname :: hyphname :: rest))
  = (Raise IOError,
     mkWorld rest [lit "Section name: "; lit "Hyphened name: "] 2 prior
       Opened).
Proof.
  intros Hs. unfold main, initial.
  rewrite !bind_input, bind_open_append.
  now rewrite bind_open_read_missing by exact Hs.
Qed.

Lemma main_no_count (prior sectionname hyphname sect : str) :
  storage 2 section_template = Some sect ->
  main py_int storage (initial prior [sectionname; hyphname])
  = (Raise EOFError,
     mkWorld [] header_prompts 2
       (prior ++ section_block sectionname hyphname sect) Opened).
Proof.
  intros Hs. unfold main, initial. rewrite !bind_input, bind_open_append.
  rewrite (bind_open_read storage _ sect) by exact Hs.
  rewrite bind_for_each_write. reflexivity.
Qed.

(** X2: when the section template cannot be opened, the run stops with
    [IOError] after the two names have been asked for: the output file has
    been opened, and nothing has been written to it. *)
Theorem missing_section_template
        (prior sectionname hyphname : str) (rest : list str) :
  storage 2 section_template = None ->
  main py_int storage (initial prior (sectionname :: hyphname :: rest))
  = (Raise IOError,
     mkWorld rest [lit "Section name: "; lit "Hyphened name: "] 2 prior
       Opened).
Proof. apply main_no_section. Qed.

(** X3: when the entry template cannot be opened at the turn after those of
    [entries], the run stops with [IOError]: the four answers of that turn
    have been taken, the output holds the section block and the blocks of the
    turns before, and neither closing literal. *)
Theorem missing_entry_template
        (prior sectionname hyphname my_range sect : str) (n : Z)
        (entries : list (str * str * str * str)) (tmpls : list str)
        (e : str * str * str * str) (rest : list str) :
  storage 2 section_template = Some sect ->
  py_int my_range = Some n ->
  List.length entries < Z.to_nat n ->
  List.length tmpls = List.length entries ->
  (forall j c, nth_error tmpls j = Some c ->
               storage (3 + 4 * (j + 1)) entry_template = Some c) ->
  storage (3 + 4 * List.length entries + 4) entry_template = None ->
  main py_int storage
    (initial prior
       (sectionname :: hyphname :: my_range ::
        flat_map answers_of entries ++ answers_of e ++ rest))
  = (Raise IOError,
     mkWorld rest
       (header_prompts ++ flat_map (fun _ => option_prompts) entries
          ++ option_prompts)
       (3 + 4 * List.length entries + 4)
       (prior ++ section_block sectionname hyphname sect
          ++ List.concat (map (fun p => entry_block (fst p) (snd p))
                            (combine tmpls entries)))
       Opened).
Proof.
  intros Hs Hn Hlt Hlen Hst Hnone.
  rewrite (main_after_count _ _ _ _ sect n) by assumption.
  unfold bind at 1.
  rewrite (option_loop_stops entries tmpls _ 0 _ (answers_of e ++ rest) _ _
             _ IOError
             (mkWorld rest
                (header_prompts ++ flat_map (fun _ => option_prompts) entries
                   ++ option_prompts)
                (3 + 4 * List.length entries + 4)
                (prior ++ section_block sectionname hyphname sect
                   ++ List.concat (map (fun p => entry_block (fst p) (snd p))
                                     (combine tmpls entries)))
                Opened)); auto.
  destruct e as [[[fmt arg] desc] nm]. cbn [answers_of app].
  rewrite option_body_missing by exact Hnone.
  now rewrite <- !app_assoc.
Qed.

(** X4: when the answers run out during the turn after those of [entries],
    the run stops with [EOFError]: the prompt left unanswered is the last one
    shown, and the output holds the section block and the blocks of the
    complete turns only. *)
Theorem answers_run_out_in_loop
        (prior sectionname hyphname my_range sect : str) (n : Z)
        (entries : list (str * str * str * str)) (tmpls : list str)
        (partial : list str) :
  storage 2 section_template = Some sect ->
  py_int my_range = Some n ->
  List.length entries < Z.to_nat n ->
  List.length tmpls = List.length entries ->
  (forall j c, nth_error tmpls j = Some c ->
               storage (3 + 4 * (j + 1)) entry_template = Some c) ->
  List.length partial < 4 ->
  main py_int storage
    (initial prior
       (sectionname :: hyphname :: my_range ::
        flat_map answers_of entries ++ partial))
  = (Raise EOFError,
     mkWorld []
       (header_prompts ++ flat_map (fun _ => option_prompts) entries
          ++ firstn (S (List.length partial)) option_prompts)
       (3 + 4 * List.length entries + List.length partial)
       (prior ++ section_block sectionname hyphname sect
          ++ List.concat (map (fun p => entry_block (fst p) (snd p))
                            (combine tmpls entries)))
       Opened).
Proof.
  intros Hs Hn Hlt Hlen Hst Hpart.
  rewrite (main_after_count _ _ _ _ sect n) by assumption.
  unfold bind at 1.
  rewrite (option_loop_stops entries tmpls _ 0 _ partial _ _ _ EOFError
             (mkWorld []
                (header_prompts ++ flat_map (fun _ => option_prompts) entries
                   ++ firstn (S (List.length partial)) option_prompts)
                (3 + 4 * List.length entries + List.length partial)
                (prior ++ section_block sectionname hyphname sect
                   ++ List.concat (map (fun p => entry_block (fst p) (snd p))
                                     (combine tmpls entries)))
                Opened)); auto.
  rewrite option_body_eof by exact Hpart.
  now rewrite <- !app_assoc.
Qed.

(** X5: when the answers run out before the loop, the run stops with
    [EOFError]; before both names are given the output file is not opened,
    and when only the count is missing the section block has been written. *)
Theorem answers_run_out_before_loop
        (prior sectionname hyphname sect : str) :
  storage 2 section_template = Some sect ->
  main py_int storage (initial prior [])
  = (Raise EOFError, mkWorld [] [lit "Section name: "] 0 prior Unopened)
  /\ main py_int storage (initial prior [sectionname])
     = (Raise EOFError,
        mkWorld [] [lit "Section name: "; lit "Hyphened name: "] 1 prior
          Unopened)
  /\ main py_int storage (initial prior [sectionname; hyphname])
     = (Raise EOFError,
        mkWorld [] header_prompts 2
          (prior ++ section_block sectionname hyphname sect) Opened).
Proof.
  intros Hs. split; [reflexivity|]. split; [reflexivity|].
  now apply main_no_count.
Qed.

(** X10: the loop keeps the four lists in step: after the turns of [entries]
    each list holds, behind what it held, the matching field of every option
    in the order of the answers. *)
Theorem lists_collect_answers
        (entries : list (str * str * str * str)) (tmpls : list str)
        (i : nat) (st : opts) (r so : list str) (clk : nat) (out : str) :
  List.length tmpls = List.length entries ->
  List.length (optformat st) = i -> List.length (optarg st) = i ->
  List.length (optdesc st) = i -> List.length (optname st) = i ->
  (forall j c, nth_error tmpls j = Some c ->
               storage (clk + 4 * (j + 1)) entry_template = Some c) ->
  fst (option_loop storage (seq i (List.length entries)) st
         (mkWorld (flat_map answers_of entries ++ r) so clk out Opened))
  = Ok (mkOpts (optformat st ++ map format_of entries)
          (optarg st ++ map arg_of entries)
          (optdesc st ++ map desc_of entries)
          (optname st ++ map name_of entries)).
Proof.
  intros Hlen H1 H2 H3 H4 Hst.
  now rewrite (option_loop_lists storage entries tmpls).
Qed.

End EarlyStops.

(** * Properties of every run *)

Section EveryRun.

Variable py_int : str -> option Z.
Variable storage : nat -> str -> option str.

(** *** The exceptions a run can end with *)

Lemma wb_ret {A} (allowed : exn -> bool) (a : A) (Q : A -> Prop) :
  Q a -> well_behaved allowed (ret a) Q.
Proof. intros H w Hw. now split. Qed.

Lemma wb_bind {A B} (allowed : exn -> bool) (m : M A) (k : A -> M B)
      (Q : A -> Prop) (R : B -> Prop) :
  well_behaved allowed m Q ->
  (forall a, Q a -> well_behaved allowed (k a) R) ->
  well_behaved allowed (bind m k) R.
Proof.
  intros Hm Hk w Hw. specialize (Hm w Hw). unfold bind.
  destruct (m w) as [[a|e] w1]; [|exact Hm].
  destruct Hm as [Hw1 Ha]. apply (Hk a Ha w1 Hw1).
Qed.

Lemma wb_input (p : str) : well_behaved io_errors (input p) (fun _ => True).
Proof.
  intros w Hw. unfold input. destruct (stdin w); cbn; now split.
Qed.

Lemma wb_write (allowed : exn -> bool) (s : str) :
  well_behaved allowed (write s) (fun _ => True).
Proof. intros w Hw. unfold write. rewrite Hw. cbn. now split. Qed.

Lemma wb_index (allowed : exn -> bool) (l : list str) (i : nat) :
  i < List.length l -> well_behaved allowed (index l i) (fun _ => True).
Proof.
  intros Hi w Hw. unfold index.
  destruct (nth_error l i) eqn:E; [now split|].
  apply nth_error_None in E. lia.
Qed.

Lemma wb_open_read (f : str) :
  well_behaved io_errors (open_read storage f) (fun _ => True).
Proof.
  intros w Hw. unfold open_read.
  destruct (storage (clock w) f); now split.
Qed.

Lemma wb_for_each {A} (allowed : exn -> bool) (xs : list A)
      (body : A -> M unit) :
  (forall x, well_behaved allowed (body x) (fun _ => True)) ->
  well_behaved allowed (for_each xs body) (fun _ => True).
Proof.
  intros Hb. induction xs as [|x xs IH]; cbn [for_each].
  - now apply wb_ret.
  - eapply wb_bind; [apply Hb|]. intros _ _. exact IH.
Qed.

(** A turn of the loop finds the four lists in step and leaves them in
    step, one element longer. *)
Lemma wb_option_body (i : nat) (st : opts) :
  in_step i st ->
  well_behaved io_errors (option_body storage i st) (in_step (S i)).
Proof.
  intros (H1 & H2 & H3 & H4). unfold option_body. cbv zeta.
  eapply wb_bind; [apply wb_input|intros a1 _].
  eapply wb_bind; [apply wb_input|intros a2 _].
  eapply wb_bind; [apply wb_input|intros a3 _].
  eapply wb_bind; [apply wb_input|intros a4 _].
  cbn [optformat optarg optdesc optname].
  eapply wb_bind; [apply wb_open_read|intros lines _].
  eapply wb_bind with (Q := fun _ => True).
  - apply wb_for_each. intros line.
    eapply wb_bind; [apply wb_index; rewrite length_app; cbn; lia|].
    intros fmt _.
    eapply wb_bind; [apply wb_index; rewrite length_app; cbn; lia|].
    intros arg _.
    eapply wb_bind; [apply wb_index; rewrite length_app; cbn; lia|].
    intros desc _.
    eapply wb_bind; [apply wb_index; rewrite length_app; cbn; lia|].
    intros nm _. apply wb_write.
  - intros _ _. apply wb_ret. unfold in_step.
    cbn [optformat optarg optdesc optname].
    rewrite !length_app. cbn. lia.
Qed.

Lemma wb_option_loop (n : nat) :
  forall i st, in_step i st ->
    well_behaved io_errors (option_loop storage (seq i n) st)
      (fun _ => True).
Proof.
  induction n as [|n IH]; intros i st Hst; cbn [seq option_loop].
  - now apply wb_ret.
  - eapply wb_bind; [apply wb_option_body, Hst|].
    intros st' Hst'. now apply IH.
Qed.

(** How a run can end, as far as the statements written out here go: it
    completes, the answers run out, a template cannot be opened, or [int]
    raises. *)
Lemma main_outcomes (prior : str) (answers : list str) :
  let r := fst (main py_int storage (initial prior answers)) in
  r = Ok tt
  \/ r = Raise EOFError
  \/ r = Raise IOError
  \/ (r = Raise ValueError
      /\ exists sectionname hyphname my_range rest,
          answers = sectionname :: hyphname :: my_range :: rest
          /\ py_int my_range = None).
Proof.
  cbv zeta.
  remember (fst (main py_int storage (initial prior answers))) as r eqn:Hr.
  destruct answers as [|sectionname [|hyphname rest]];
    [right; left; exact Hr|right; left; exact Hr|].
  destruct (storage 2 section_template) as [sect|] eqn:Hs.
  2:{ rewrite main_no_section in Hr by exact Hs.
      right; right; left; exact Hr. }
  destruct rest as [|my_range rest].
  { rewrite (main_no_count py_int storage _ _ _ sect) in Hr by exact Hs.
    right; left; exact Hr. }
  destruct (py_int my_range) as [n|] eqn:Hn.
  2:{ rewrite (main_bad_count py_int storage _ _ _ _ sect) in Hr by assumption.
      right; right; right. split; [exact Hr|].
      now exists sectionname, hyphname, my_range, rest. }
  rewrite (main_after_count py_int storage _ _ _ _ sect n) in Hr by assumption.
  pose proof (wb_option_loop (Z.to_nat n) 0 (mkOpts [] [] [] [])
                (conj eq_refl (conj eq_refl (conj eq_refl eq_refl)))
                (mkWorld rest header_prompts 3
                   (prior ++ section_block sectionname hyphname sect) Opened)
                eq_refl) as Hloop.
  unfold bind at 1 in Hr.
  destruct (option_loop storage (seq 0 (Z.to_nat n)) (mkOpts [] [] [] [])
              (mkWorld rest header_prompts 3
                 (prior ++ section_block sectionname hyphname sect) Opened))
    as [[st'|e] w'].
  - destruct Hloop as [Hw _]. destruct w' as [si so clk out h].
    cbn [handle] in Hw. subst h. rewrite !bind_write in Hr. now left.
  - destruct Hloop as [_ He]. cbn [fst] in Hr.
    destruct e; try discriminate He; [right; left|right; right; left];
      exact Hr.
Qed.

(** X1: whatever the answers, the storage and [int] are, the look-ups
    [optformat[i]], [optarg[i]], [optdesc[i]] and [optname[i]] stay within
    their lists (no run ends with [IndexError]), and the file object is not
    used before it is bound (no run ends with [NameError]). *)
Theorem lookups_stay_in_range (prior : str) (answers : list str) :
  fst (main py_int storage (initial prior answers)) <> Raise IndexError
  /\ fst (main py_int storage (initial prior answers)) <> Raise NameError.
Proof.
  destruct (main_outcomes prior answers) as [H|[H|[H|[H _]]]];
    rewrite H; split; discriminate.
Qed.

(** *** The storage a run looks at *)

Lemma silent_ret {A} (a : A) : silent (ret a).
Proof. intros w r w' H; inversion H; subst. repeat split; discriminate. Qed.

Lemma silent_bind {A B} (m : M A) (k : A -> M B) :
  silent m -> (forall a, silent (k a)) -> silent (bind m k).
Proof.
  intros Hm Hk w r w' H. unfold bind in H.
  destruct (m w) as [[a|e] w1] eqn:E.
  - destruct (Hm _ _ _ E) as (H1 & H2 & H3 & _).
    destruct (Hk a _ _ _ H) as (K1 & K2 & K3 & K4).
    repeat split; try congruence. exact K4.
  - inversion H; subst. destruct (Hm _ _ _ E) as (H1 & H2 & H3 & H4).
    repeat split; try assumption.
    intros e' He'. inversion He'; subst. now apply H4.
Qed.

Lemma silent_write (s : str) : silent (write s).
Proof.
  intros [si so clk out []] r w' H; inversion H; subst;
    repeat split; intros e He; inversion He; discriminate.
Qed.

Lemma silent_index (l : list str) (i : nat) : silent (index l i).
Proof.
  unfold index. intros w r w' H.
  destruct (nth_error l i); inversion H; subst;
    repeat split; intros e He; inversion He; discriminate.
Qed.

Lemma silent_int (s : str) : silent (int py_int s).
Proof.
  unfold int. intros w r w' H.
  destruct (py_int s); inversion H; subst;
    repeat split; intros e He; inversion He; discriminate.
Qed.

Lemma silent_open_append : silent open_append.
Proof.
  intros w r w' H; inversion H; subst. repeat split; discriminate.
Qed.

Lemma silent_close : silent close.
Proof.
  intros [si so clk out []] r w' H; inversion H; subst;
    repeat split; intros e He; inversion He; discriminate.
Qed.

Lemma silent_open_read (f : str) : silent (open_read storage f).
Proof.
  unfold open_read. intros w r w' H.
  destruct (storage (clock w) f); inversion H; subst;
    repeat split; intros e He; inversion He; discriminate.
Qed.

Lemma silent_for_each {A} (xs : list A) (body : A -> M unit) :
  (forall x, silent (body x)) -> silent (for_each xs body).
Proof.
  intros Hb. induction xs as [|x xs IH]; cbn [for_each].
  - apply silent_ret.
  - apply silent_bind; auto.
Qed.

Create HintDb silent.
#[local] Hint Resolve silent_ret silent_write silent_index silent_int
  silent_open_append silent_close silent_open_read : silent.

Ltac silent_step :=
  first [ solve [auto with silent]
        | apply silent_for_each; intros ?
        | apply silent_bind; [|intros ?] ].

Lemma bind_cong {A B} (m1 m2 : M A) (k : A -> M B) (w : World) :
  m1 w = m2 w -> bind m1 k w = bind m2 k w.
Proof. unfold bind. now intros ->. Qed.

(** A turn that completes has taken four answers. *)
Lemma option_body_clock (i : nat) (st st' : opts) (w w' : World) :
  option_body storage i st w = (Ok st', w') -> clock w' = clock w + 4.
Proof.
  destruct w as [si so clk out h].
  destruct si as [|a1 [|a2 [|a3 [|a4 r]]]];
    try (rewrite option_body_eof by (cbn; lia); discriminate).
  unfold option_body. rewrite !bind_input. intros H.
  match type of H with ?m ?w0 = _ =>
    assert (Hs : silent m) by (cbv zeta; repeat silent_step)
  end.
  destruct (Hs _ _ _ H) as (_ & _ & Hc & _).
  rewrite Hc. cbn [clock]. lia.
Qed.

(** A turn looks at the storage once: at the entry template, when its four
    answers have been given. *)
Lemma option_body_same (storage' : nat -> str -> option str) (i : nat)
      (st : opts) (w : World) :
  storage (clock w + 4) entry_template
  = storage' (clock w + 4) entry_template ->
  option_body storage i st w = option_body storage' i st w.
Proof.
  destruct w as [si so clk out h]. cbn [clock]. intros H.
  destruct si as [|a1 [|a2 [|a3 [|a4 r]]]];
    try (rewrite !option_body_eof by (cbn; lia); reflexivity).
  unfold option_body. rewrite !bind_input.
  unfold bind at 1 3. unfold open_read. cbn [clock].
  replace (S (S (S (S clk)))) with (clk + 4) by lia.
  now rewrite H.
Qed.

Lemma option_loop_same (storage' : nat -> str -> option str)
      (idx : list nat) :
  forall st w,
    (forall j, j < List.length idx ->
               storage (clock w + 4 * (j + 1)) entry_template
               = storage' (clock w + 4 * (j + 1)) entry_template) ->
    option_loop storage idx st w = option_loop storage' idx st w.
Proof.
  induction idx as [|i idx IH]; intros st w H; [reflexivity|].
  cbn [option_loop]. unfold bind.
  rewrite <- (option_body_same storage')
    by (replace (clock w + 4) with (clock w + 4 * (0 + 1)) by lia;
        apply H; cbn; lia).
  destruct (option_body storage i st w) as [[st'|e] w'] eqn:E;
    [|reflexivity].
  apply IH. intros j Hj. rewrite (option_body_clock _ _ _ _ _ E).
  replace (clock w + 4 + 4 * (j + 1)) with (clock w + 4 * (S j + 1))
    by lia.
  apply H. cbn; lia.
Qed.

(** X8: a run looks at the storage at definite moments only: at the section
    template when the two names have been given, and at the entry template
    each time the four answers of an option have been given.  Two storages
    that agree there give the same run, whatever else they hold. *)
Theorem run_reads_templates_only
        (storage' : nat -> str -> option str) (prior : str)
        (answers : list str) :
  storage 2 section_template = storage' 2 section_template ->
  (forall j, storage (3 + 4 * (j + 1)) entry_template
             = storage' (3 + 4 * (j + 1)) entry_template) ->
  main py_int storage (initial prior answers) = main py_int storage' (initial prior answers).
Proof.
  intros Hs He.
  destruct answers as [|sectionname [|hyphname rest]];
    [reflexivity|reflexivity|].
  destruct (storage' 2 section_template) as [sect|] eqn:Hs'.
  2:{ now rewrite !main_no_section by assumption. }
  destruct rest as [|my_range rest].
  { now rewrite !(main_no_count _ _ _ _ _ sect) by assumption. }
  destruct (py_int my_range) as [n|] eqn:Hn.
  2:{ now rewrite !(main_bad_count _ _ _ _ _ _ sect) by assumption. }
  rewrite !(main_after_count _ _ _ _ _ _ sect n) by assumption.
  apply bind_cong. apply option_loop_same. intros j _. apply He.
Qed.

(** *** The answers a run takes *)

Lemma in_order_silent {A} (m : M A) : silent m -> in_order m.
Proof.
  intros Hm w r w' H. destruct (Hm _ _ _ H) as (H1 & H2 & H3 & H4).
  split.
  - exists []. cbn. split; [now rewrite H1|lia].
  - intros Hl. rewrite H2, H3, Hl.
    destruct r as [a|e]; cbn; [lia|].
    destruct e; cbn; try lia. now destruct (H4 EOFError).
Qed.

Lemma in_order_input (p : str) : in_order (input p).
Proof.
  intros [si so clk out h] r w' H. unfold input in H. cbn in H.
  destruct si as [|a si]; inversion H; subst; cbn.
  - split; [exists []; cbn; split; [reflexivity|lia]|].
    intros Hl. rewrite length_app. cbn. lia.
  - split; [exists [a]; cbn; split; [reflexivity|lia]|].
    intros Hl. rewrite length_app. cbn. lia.
Qed.

Lemma in_order_bind {A B} (m : M A) (k : A -> M B) :
  in_order m -> (forall a, in_order (k a)) -> in_order (bind m k).
Proof.
  intros Hm Hk w r w' H. unfold bind in H.
  destruct (m w) as [[a|e] w1] eqn:E.
  - destruct (Hm _ _ _ E) as [(u1 & Hu1 & Hc1) Hp1].
    destruct (Hk a _ _ _ H) as [(u2 & Hu2 & Hc2) Hp2].
    split.
    + exists (u1 ++ u2). rewrite <- app_assoc, <- Hu2, <- Hu1.
      split; [reflexivity|]. rewrite length_app. lia.
    + intros Hl. apply Hp2. rewrite (Hp1 Hl). cbn. lia.
  - inversion H; subst. destruct (Hm _ _ _ E) as [Hu Hp].
    split; [exact Hu|exact Hp].
Qed.

Ltac in_order_step :=
  first [ apply in_order_input
        | apply in_order_silent; solve [repeat silent_step]
        | apply in_order_bind; [|intros ?] ].

Lemma in_order_option_body (i : nat) (st : opts) :
  in_order (option_body storage i st).
Proof. unfold option_body. cbv zeta. repeat in_order_step. Qed.

Lemma in_order_option_loop (idx : list nat) :
  forall st, in_order (option_loop storage idx st).
Proof.
  induction idx as [|i idx IH]; intros st; cbn [option_loop].
  - apply in_order_silent, silent_ret.
  - apply in_order_bind; [apply in_order_option_body|exact IH].
Qed.

Lemma in_order_main : in_order (main py_int storage).
Proof.
  unfold main.
  repeat first [ apply in_order_option_loop | in_order_step ].
Qed.

(** X9: a run takes the answers in the order they were typed, none is
    skipped and none taken twice: what it has taken is a front part of the
    answers, as long as the clock says, and the rest is left.  Every prompt
    shown has been answered, except the one at which the answers ran out. *)
Theorem answers_taken_in_order (prior : str) (answers : list str) :
  let r := fst (main py_int storage (initial prior answers)) in
  let w := snd (main py_int storage (initial prior answers)) in
  (exists used,
      answers = used ++ stdin w /\ clock w = List.length used)
  /\ List.length (stdout w) = clock w + unanswered r.
Proof.
  cbv zeta.
  destruct (main py_int storage (initial prior answers)) as [r w] eqn:E.
  destruct (in_order_main _ _ _ E) as [(used & Hu & Hc) Hp].
  cbn [fst snd]. split.
  - exists used. split; [exact Hu|exact Hc].
  - apply Hp. reflexivity.
Qed.

(** *** Runs that complete *)

Lemma option_loop_clock (idx : list nat) :
  forall st st' w w',
    option_loop storage idx st w = (Ok st', w') ->
    clock w' = clock w + 4 * List.length idx.
Proof.
  induction idx as [|i idx IH]; intros st st' w w' H; cbn [option_loop] in H.
  - inversion H; subst. cbn. lia.
  - unfold bind in H.
    destruct (option_body storage i st w) as [[st1|e] w1] eqn:E;
      [|discriminate H].
    rewrite (IH _ _ _ _ H), (option_body_clock _ _ _ _ _ E). cbn. lia.
Qed.

(** X12: a run completes only if the text typed for the count is an
    integer, and then it has taken exactly three answers and four more for
    every turn of the loop, it has closed the output file, and the output
    ends with the two closing literals. *)
Theorem completed_run (prior : str) (answers : list str) :
  fst (main py_int storage (initial prior answers)) = Ok tt ->
  exists sectionname hyphname my_range rest n body,
    answers = sectionname :: hyphname :: my_range :: rest
    /\ py_int my_range = Some n
    /\ clock (snd (main py_int storage (initial prior answers)))
       = 3 + 4 * Z.to_nat n
    /\ handle (snd (main py_int storage (initial prior answers))) = Closed
    /\ output (snd (main py_int storage (initial prior answers)))
       = body ++ line1 ++ line2.
Proof.
  remember (main py_int storage (initial prior answers)) as run eqn:Hr.
  destruct answers as [|sectionname [|hyphname rest]];
    [subst run; discriminate|subst run; discriminate|].
  destruct (storage 2 section_template) as [sect|] eqn:Hs.
  2:{ rewrite main_no_section in Hr by exact Hs. now subst run. }
  destruct rest as [|my_range rest].
  { rewrite (main_no_count py_int storage _ _ _ sect) in Hr by exact Hs.
    now subst run. }
  destruct (py_int my_range) as [n|] eqn:Hn.
  2:{ rewrite (main_bad_count py_int storage _ _ _ _ sect) in Hr by assumption.
      now subst run. }
  rewrite (main_after_count py_int storage _ _ _ _ sect n) in Hr by assumption.
  pose proof (wb_option_loop (Z.to_nat n) 0 (mkOpts [] [] [] [])
                (conj eq_refl (conj eq_refl (conj eq_refl eq_refl)))
                (mkWorld rest header_prompts 3
                   (prior ++ section_block sectionname hyphname sect) Opened)
                eq_refl) as Hloop.
  unfold bind at 1 in Hr.
  destruct (option_loop storage (seq 0 (Z.to_nat n)) (mkOpts [] [] [] [])
              (mkWorld rest header_prompts 3
                 (prior ++ section_block sectionname hyphname sect) Opened))
    as [[st'|e] w'] eqn:E; [|now subst run].
  intros _. destruct Hloop as [Hw _].
  apply option_loop_clock in E. rewrite length_seq in E. cbn [clock] in E.
  destruct w' as [si so clk out h]. cbn [handle clock] in Hw, E. subst h clk.
  rewrite !bind_write in Hr. cbn [close handle] in Hr. subst run.
  cbn [snd clock handle output].
  exists sectionname, hyphname, my_range, rest, n, out.
  split; [reflexivity|]. split; [exact Hn|]. split; [reflexivity|].
  split; [reflexivity|]. now rewrite <- app_assoc.
Qed.

End EveryRun.

(** * The sample session, continued *)

Section MoreSession.

Lemma missing_section_template_witness :
  Demo.empty_storage 2 section_template = None
  /\ main PyInt.int Demo.empty_storage
       (initial (lit "<!-- old -->") (Demo.header "1"))
     = (Raise IOError,
        mkWorld [lit "1"] [lit "Section name: "; lit "Hyphened name: "] 2
          (lit "<!-- old -->") Opened).
Proof.
  split; [reflexivity|].
  apply (missing_section_template PyInt.int Demo.empty_storage (lit "<!-- old -->")
           (lit "TCP Options") (lit "tcp-options") [lit "1"]).
  reflexivity.
Defined.

Lemma missing_entry_template_witness :
  Demo.lost_entry_storage 2 section_template = Some Demo.section_xml
  /\ PyInt.int (lit "2") = Some 2%Z
  /\ List.length [Demo.tcp_connect] < Z.to_nat 2
  /\ List.length [Demo.entry_xml] = List.length [Demo.tcp_connect]
  /\ (forall j c,
        nth_error [Demo.entry_xml] j = Some c ->
        Demo.lost_entry_storage (3 + 4 * (j + 1)) entry_template = Some c)
  /\ Demo.lost_entry_storage (3 + 4 * List.length [Demo.tcp_connect] + 4)
       entry_template = None
  /\ main PyInt.int Demo.lost_entry_storage
       (initial []
          (Demo.header "2"
             ++ answers_of Demo.tcp_connect ++ answers_of Demo.udp))
     = (Raise IOError,
        mkWorld [] (header_prompts ++ option_prompts ++ option_prompts) 11
          (section_block (lit "TCP Options") (lit "tcp-options")
             Demo.section_xml
           ++ entry_block Demo.entry_xml Demo.tcp_connect)
          Opened).
Proof.
  assert (Hst : forall j c,
             nth_error [Demo.entry_xml] j = Some c ->
             Demo.lost_entry_storage (3 + 4 * (j + 1)) entry_template
             = Some c).
  { intros [|[|j]] c H; try discriminate H; injection H as <-; reflexivity. }
  split; [reflexivity|]. split; [reflexivity|]. split; [cbn; lia|].
  split; [reflexivity|]. split; [exact Hst|]. split; [reflexivity|].
  etransitivity;
    [apply (missing_entry_template PyInt.int Demo.lost_entry_storage []
              (lit "TCP Options") (lit "tcp-options") (lit "2")
              Demo.section_xml 2 [Demo.tcp_connect] [Demo.entry_xml]
              Demo.udp []);
     [reflexivity|reflexivity|cbn; lia|reflexivity|exact Hst|reflexivity]|].
  vm_compute. reflexivity.
Defined.

Lemma answers_run_out_in_loop_witness :
  Demo.storage 2 section_template = Some Demo.section_xml
  /\ PyInt.int (lit "2") = Some 2%Z
  /\ List.length [Demo.tcp_connect] < Z.to_nat 2
  /\ List.length [Demo.entry_xml] = List.length [Demo.tcp_connect]
  /\ (forall j c,
        nth_error [Demo.entry_xml] j = Some c ->
        Demo.storage (3 + 4 * (j + 1)) entry_template = Some c)
  /\ List.length [lit "udp"; lit ""] < 4
  /\ main PyInt.int Demo.storage
       (initial []
          (Demo.header "2"
             ++ answers_of Demo.tcp_connect ++ [lit "udp"; lit ""]))
     = (Raise EOFError,
        mkWorld []
          (header_prompts ++ option_prompts ++ firstn 3 option_prompts) 9
          (section_block (lit "TCP Options") (lit "tcp-options")
             Demo.section_xml
           ++ entry_block Demo.entry_xml Demo.tcp_connect)
          Opened).
Proof.
  assert (Hst : forall j c,
             nth_error [Demo.entry_xml] j = Some c ->
             Demo.storage (3 + 4 * (j + 1)) entry_template = Some c).
  { intros [|[|j]] c H; try discriminate H; injection H as <-; reflexivity. }
  split; [reflexivity|]. split; [reflexivity|]. split; [cbn; lia|].
  split; [reflexivity|]. split; [exact Hst|]. split; [cbn; lia|].
  etransitivity;
    [apply (answers_run_out_in_loop PyInt.int Demo.storage []
              (lit "TCP Options") (lit "tcp-options") (lit "2")
              Demo.section_xml 2 [Demo.tcp_connect] [Demo.entry_xml]
              [lit "udp"; lit ""]);
     [reflexivity|reflexivity|cbn; lia|reflexivity|exact Hst|cbn; lia]|].
  vm_compute. reflexivity.
Defined.

Lemma answers_run_out_before_loop_witness :
  Demo.storage 2 section_template = Some Demo.section_xml
  /\ main PyInt.int Demo.storage (initial (lit "<!-- old -->") [])
     = (Raise EOFError,
        mkWorld [] [lit "Section name: "] 0 (lit "<!-- old -->") Unopened)
  /\ main PyInt.int Demo.storage (initial (lit "<!-- old -->") [lit "TCP Options"])
     = (Raise EOFError,
        mkWorld [] [lit "Section name: "; lit "Hyphened name: "] 1
          (lit "<!-- old -->") Unopened)
  /\ main PyInt.int Demo.storage
       (initial (lit "<!-- old -->") [lit "TCP Options"; lit "tcp-options"])
     = (Raise EOFError,
        mkWorld [] header_prompts 2
          (lit "<!-- old -->"
             ++ section_block (lit "TCP Options") (lit "tcp-options")
                  Demo.section_xml)
          Opened).
Proof.
  split; [reflexivity|].
  apply (answers_run_out_before_loop PyInt.int Demo.storage (lit "<!-- old -->")
           (lit "TCP Options") (lit "tcp-options") Demo.section_xml).
  reflexivity.
Defined.

Lemma template_without_placeholders_copied_witness :
  occurs (name SECTION_NAME) Demo.fixed_xml = false
  /\ occurs (name SECTION_HYPHENED_NAME) Demo.fixed_xml = false
  /\ occurs (name OPT_FORMAT) Demo.fixed_xml = false
  /\ occurs (name OPT_ARG) Demo.fixed_xml = false
  /\ occurs (name OPT_DESC) Demo.fixed_xml = false
  /\ occurs (name OPT_NAME) Demo.fixed_xml = false
  /\ section_block (lit "TCP Options") (lit "tcp-options") Demo.fixed_xml
     = Demo.fixed_xml
  /\ entry_block Demo.fixed_xml Demo.tcp_connect = Demo.fixed_xml.
Proof.
  split; [reflexivity|]. split; [reflexivity|]. split; [reflexivity|].
  split; [reflexivity|]. split; [reflexivity|]. split; [reflexivity|].
  apply (template_without_placeholders_copied Demo.fixed_xml Demo.fixed_xml
           (lit "TCP Options") (lit "tcp-options") Demo.tcp_connect);
    reflexivity.
Defined.

Lemma rendering_keeps_terminators_witness :
  ~ In newline (lit "TCP Options") /\ ~ In newline (lit "tcp-options")
  /\ ~ In newline (lit "tcp-connect") /\ ~ In newline (lit "portnumber")
  /\ ~ In newline (lit "TCP Connect Mode") /\ ~ In newline (lit "tcp connect")
  /\ terminators
       (section_block (lit "TCP Options") (lit "tcp-options")
          Demo.section_xml)
     = terminators Demo.section_xml
  /\ terminators (entry_block Demo.entry_xml Demo.tcp_connect)
     = terminators Demo.entry_xml.
Proof.
  assert (H : forall s : str,
             forallb (fun c => negb (Ascii.eqb c newline)) s = true ->
             ~ In newline s).
  { intros s Hs Hin. rewrite forallb_forall in Hs.
    specialize (Hs _ Hin). now rewrite Ascii.eqb_refl in Hs. }
  split; [now apply H|]. split; [now apply H|]. split; [now apply H|].
  split; [now apply H|]. split; [now apply H|]. split; [now apply H|].
  apply (rendering_keeps_terminators Demo.section_xml Demo.entry_xml
           (lit "TCP Options")
           (lit "tcp-options") (lit "tcp-connect") (lit "portnumber")
           (lit "TCP Connect Mode") (lit "tcp connect"));
    now apply H.
Defined.

Lemma run_reads_templates_only_witness :
  Demo.storage 2 section_template = Demo.noisy_storage 2 section_template
  /\ (forall j, Demo.storage (3 + 4 * (j + 1)) entry_template
                = Demo.noisy_storage (3 + 4 * (j + 1)) entry_template)
  /\ main PyInt.int Demo.storage
       (initial []
          (Demo.header "2"
             ++ answers_of Demo.tcp_connect ++ answers_of Demo.udp))
     = main PyInt.int Demo.noisy_storage
         (initial []
            (Demo.header "2"
               ++ answers_of Demo.tcp_connect ++ answers_of Demo.udp)).
Proof.
  assert (He : forall j, Demo.storage (3 + 4 * (j + 1)) entry_template
                         = Demo.noisy_storage (3 + 4 * (j + 1))
                             entry_template).
  { intros j. unfold Demo.storage, Demo.noisy_storage.
    replace (3 + 4 * (j + 1)) with (7 + 4 * j) by lia. reflexivity. }
  split; [reflexivity|]. split; [exact He|].
  apply (run_reads_templates_only PyInt.int Demo.storage Demo.noisy_storage);
    [reflexivity|exact He].
Defined.

Lemma lists_collect_answers_witness :
  List.length [Demo.entry_xml; Demo.entry_xml]
  = List.length [Demo.tcp_connect; Demo.udp]
  /\ (forall j c,
        nth_error [Demo.entry_xml; Demo.entry_xml] j = Some c ->
        Demo.storage (3 + 4 * (j + 1)) entry_template = Some c)
  /\ fst (option_loop Demo.storage (seq 0 2) (mkOpts [] [] [] [])
            (mkWorld (answers_of Demo.tcp_connect ++ answers_of Demo.udp)
               header_prompts 3 [] Opened))
     = Ok (mkOpts [lit "tcp-connect"; lit "udp"] [lit "portnumber"; lit ""]
             [lit "TCP Connect Mode"; lit "UDP Mode"]
             [lit "tcp connect"; lit "udp mode"]).
Proof.
  assert (Hst : forall j c,
             nth_error [Demo.entry_xml; Demo.entry_xml] j = Some c ->
             Demo.storage (3 + 4 * (j + 1)) entry_template = Some c).
  { intros [|[|[|j]]] c H; try discriminate H;
      injection H as <-; reflexivity. }
  split; [reflexivity|]. split; [exact Hst|].
  apply (lists_collect_answers Demo.storage [Demo.tcp_connect; Demo.udp]
           [Demo.entry_xml; Demo.entry_xml] 0 (mkOpts [] [] [] []) []
           header_prompts 3 []);
    [reflexivity|reflexivity|reflexivity|reflexivity|reflexivity|exact Hst].
Defined.

Lemma completed_run_witness :
  fst (main PyInt.int Demo.storage
         (initial (lit "<!-- old -->")
            (Demo.header "1" ++ answers_of Demo.tcp_connect)))
  = Ok tt
  /\ exists sectionname hyphname my_range rest n body,
      Demo.header "1" ++ answers_of Demo.tcp_connect
      = sectionname :: hyphname :: my_range :: rest
      /\ PyInt.int my_range = Some n
      /\ clock (snd (main PyInt.int Demo.storage
                       (initial (lit "<!-- old -->")
                          (Demo.header "1" ++ answers_of Demo.tcp_connect))))
         = 3 + 4 * Z.to_nat n
      /\ handle (snd (main PyInt.int Demo.storage
                        (initial (lit "<!-- old -->")
                           (Demo.header "1" ++ answers_of Demo.tcp_connect))))
         = Closed
      /\ output (snd (main PyInt.int Demo.storage
                        (initial (lit "<!-- old -->")
                           (Demo.header "1" ++ answers_of Demo.tcp_connect))))
         = body ++ line1 ++ line2.
Proof.
  split; [reflexivity|].
  apply (completed_run PyInt.int Demo.storage (lit "<!-- old -->")
           (Demo.header "1" ++ answers_of Demo.tcp_connect)).
  reflexivity.
Defined.


(** The sample [int] at the edges: the characters 28-31 are no white space
    for it, the characters 133 and 160 are, and 4300 digits are the most it
    takes. *)
Example int_edges :
  map PyInt.int
    [[ascii_of_nat 28] ++ lit "5"; [ascii_of_nat 160] ++ lit "5";
     lit "5" ++ [ascii_of_nat 133]; [ascii_of_nat 9] ++ lit "-3 ";
     lit "- 3"; repeat "0"%char 4301; repeat "0"%char 4300]
  = [None; Some 5%Z; Some 5%Z; Some (-3)%Z; None; None; Some 0%Z].
Proof. vm_compute. reflexivity. Qed.

End MoreSession.
